(** * yearn-exporter: the Vaults v2 registry and the vault snapshot

    A shallow embedding of [yearn/vaults_v2.py]:

    - [Registry.process_events], [Registry.__init__] and
      [Registry.watch_events], the event-sourced registry;
    - [VaultV2.__post_init__] and [VaultV2.describe], the per-vault snapshot;
    - [get_vaults] and [get_experimental_vaults], the one-shot listing.

    Python objects mutated in place become explicit state passing, and a
    raised exception becomes the [Raise] branch of [result].  A loop that can
    raise half-way returns the state reached together with the exception, as
    the mutated object survives the exception in Python.

    Calls that leave the module (the contract explorer, the chain, the price
    oracle, the strategies) are Section variables: they are taken to answer.
    The one exception is [fetch_multicall], whose failure the source handles
    itself. *)

From Stdlib Require Import ZArith NArith Bool List Lia Sorted.
From Stdlib Require Import Floats.SpecFloat.
From stdpp Require Import base option list gmap strings fin_maps.

Local Open Scope Z_scope.
Set Default Proof Using "Type".

(** ** Exceptions *)

(** A Python exception: its class, the classes it inherits from, and its
    argument. *)
Record exn := Exn {
  exn_type : string;
  exn_bases : list string;
  exn_arg : string
}.

(** [isinstance e cls], the test behind [except cls]. *)
Definition isinstance (e : exn) (cls : string) : bool :=
  bool_decide (cls = exn_type e) || bool_decide (cls ∈ exn_bases e).

(** [yearn.events.UnknownEvent]: what the spec calls UnknownEventKind. *)
Definition UnknownEvent (name : string) : exn :=
  Exn "UnknownEvent" ["Exception"] name.

(** Raised by a dict subscript on a missing key; for [api_versions] this is
    what the spec calls MissingRelease. *)
Definition KeyError (key : string) : exn :=
  Exn "KeyError" ["LookupError"; "Exception"] key.

(** Raised by an event subscript on a field the event does not carry. *)
Definition EventLookupError (key : string) : exn :=
  Exn "EventLookupError" ["LookupError"; "Exception"] key.

Definition IndexError : exn :=
  Exn "IndexError" ["LookupError"; "Exception"] "list index out of range".

Definition AttributeError (attr : string) : exn :=
  Exn "AttributeError" ["Exception"] attr.

Definition TypeError : exn :=
  Exn "TypeError" ["Exception"] "unsupported operand type(s)".

Definition OverflowError : exn :=
  Exn "OverflowError" ["ArithmeticError"; "Exception"] "result too large for a float".

Definition ZeroDivisionError : exn :=
  Exn "ZeroDivisionError" ["ArithmeticError"; "Exception"] "division by zero".

Inductive result (A : Type) : Type :=
| Ok (a : A)
| Raise (e : exn).
Arguments Ok {A} a.
Arguments Raise {A} e.

Definition bind {A B} (r : result A) (k : A → result B) : result B :=
  match r with
  | Ok a => k a
  | Raise e => Raise e
  end.

Notation "x ←! r ; k" := (bind r (fun x => k))
  (at level 100, r at next level, right associativity,
   format "x  ←!  r ;  '/' k").

(** ** Contracts and events *)

Record AbiParam := {
  param_name : string;
  param_type : string
}.

(** One entry of a contract ABI, with the keys [__post_init__] reads. *)
Record AbiEntry := {
  abi_name : string;
  abi_type : string;
  abi_stateMutability : string;
  abi_inputs : list AbiParam;
  abi_outputs : list AbiParam
}.

(** A brownie contract handle. *)
Record Contract := mkContract {
  contract_name : string;
  address : string;
  abi : list AbiEntry
}.

(** [Contract.from_abi(name, address, abi)]. *)
Definition Contract_from_abi (name addr : string) (a : list AbiEntry) : Contract :=
  mkContract name addr a.

(** A decoded event: [evt.name], [evt.block_number] and the fields read by
    [evt[key]]. *)
Record Event := {
  evt_name : string;
  block_number : Z;
  evt_args : gmap string string
}.

(** [evt[key]] *)
Definition evt_getitem (evt : Event) (key : string) : result string :=
  match evt_args evt !! key with
  | Some v => Ok v
  | None => Raise (EventLookupError key)
  end.

(** ** The registry *)

Record Registry := {
  registry : Contract;
  governance : option string;
  api_versions : gmap string Contract;
  vaults : gmap string Contract;
  names : gmap string string;
  endorsed : gmap string string;
  tags : gmap string string;
  events : list Event;
  (** [None] while [__init__] has not assigned the attribute yet *)
  last_block : option Z
}.

Definition set_governance (g : string) (self : Registry) : Registry :=
  {| registry := registry self; governance := Some g;
     api_versions := api_versions self; vaults := vaults self;
     names := names self; endorsed := endorsed self; tags := tags self;
     events := events self; last_block := last_block self |}.

Definition set_api_version (v : string) (c : Contract) (self : Registry) : Registry :=
  {| registry := registry self; governance := governance self;
     api_versions := <[v := c]> (api_versions self); vaults := vaults self;
     names := names self; endorsed := endorsed self; tags := tags self;
     events := events self; last_block := last_block self |}.

Definition set_vault (a : string) (c : Contract) (self : Registry) : Registry :=
  {| registry := registry self; governance := governance self;
     api_versions := api_versions self; vaults := <[a := c]> (vaults self);
     names := names self; endorsed := endorsed self; tags := tags self;
     events := events self; last_block := last_block self |}.

Definition set_name (a : string) (n : string) (self : Registry) : Registry :=
  {| registry := registry self; governance := governance self;
     api_versions := api_versions self; vaults := vaults self;
     names := <[a := n]> (names self); endorsed := endorsed self;
     tags := tags self; events := events self; last_block := last_block self |}.

Definition set_tag (a : string) (t : string) (self : Registry) : Registry :=
  {| registry := registry self; governance := governance self;
     api_versions := api_versions self; vaults := vaults self;
     names := names self; endorsed := endorsed self;
     tags := <[a := t]> (tags self); events := events self;
     last_block := last_block self |}.

Definition set_last_block (b : Z) (self : Registry) : Registry :=
  {| registry := registry self; governance := governance self;
     api_versions := api_versions self; vaults := vaults self;
     names := names self; endorsed := endorsed self; tags := tags self;
     events := events self; last_block := Some b |}.

(** A raw log of the chain, as [get_logs] returns it. *)
Record Log := {
  log_address : string;
  log_block : Z;
  log_event : Event
}.

(** Modelled from the spec: [get_logs] of [yearn.events] is not part of the
    sources; the spec gives it as [fetchLogs(contractAddress, fromBlock,
    toBlock)], an ordered sequence of raw logs.  Both bounds are inclusive,
    as in the node's log filter. *)
Definition get_logs (ledger : list Log) (addr : string) (from_block to_block : Z)
  : list Log :=
  List.filter
    (fun l => bool_decide (log_address l = addr)
              && (from_block <=? log_block l) && (log_block l <=? to_block))
    ledger.

(** Modelled from the spec: [decode_logs] of [yearn.events] is not part of
    the sources; the spec gives it as [decode(rawLogs)], the ordered sequence
    of decoded events. *)
Definition decode_logs (logs : list Log) : list Event :=
  List.map log_event logs.


(** ** Python values and dicts *)

(** The values a snapshot holds: ints, floats (binary64, as [spec_float]),
    strings and nested dicts. *)
#[warnings="-register-all"] Inductive pyval : Type :=
| PInt (z : Z)
| PFloat (f : spec_float)
| PStr (s : string)
| PDict (d : list (string * pyval)).

(** A dict with string keys, in insertion order. *)
Abbreviation pydict := (list (string * pyval)).

(** [d.get(k)] *)
Fixpoint dict_get (d : pydict) (k : string) : option pyval :=
  match d with
  | [] => None
  | (k', v) :: d' => if bool_decide (k' = k) then Some v else dict_get d' k
  end.

(** [d[k]] *)
Definition dict_getitem (d : pydict) (k : string) : result pyval :=
  match dict_get d k with
  | Some v => Ok v
  | None => Raise (KeyError k)
  end.

(** [k in d] *)
Definition dict_contains (d : pydict) (k : string) : bool :=
  match dict_get d k with
  | Some _ => true
  | None => false
  end.

(** [d[k] = v]: a known key keeps its place, a new one goes last. *)
Fixpoint dict_set (d : pydict) (k : string) (v : pyval) : pydict :=
  match d with
  | [] => [(k, v)]
  | (k', v') :: d' =>
      if bool_decide (k' = k) then (k, v) :: d' else (k', v') :: dict_set d' k v
  end.

(** [list(d)], the keys in iteration order *)
Definition dict_keys (d : pydict) : list string := List.map fst d.

(** [dict(pairs)]: a later pair replaces an earlier one of the same key. *)
Definition dict_of (pairs : list (string * pyval)) : pydict :=
  fold_left (fun d kv => dict_set d (fst kv) (snd kv)) pairs [].

(** ** Float arithmetic of Python, on binary64 *)

Definition prec : Z := 53.
Definition emax : Z := 1024.

(** [float(z)]: round to nearest, ties to even; too large an int raises. *)
Definition float_of_int (z : Z) : result spec_float :=
  match binary_normalize prec emax z 0 false with
  | S754_infinity _ => Raise OverflowError
  | f => Ok f
  end.

(** [a / b] on ints: the float nearest to the exact quotient. *)
Definition int_true_divide (a b : Z) : result spec_float :=
  if b =? 0 then Raise ZeroDivisionError
  else
    let s := xorb (a <? 0) (b <? 0) in
    let '(q, e, l) := SFdiv_core_binary prec emax (Z.abs a) 0 (Z.abs b) 0 in
    match binary_round_aux prec emax s q e l with
    | S754_infinity _ => Raise OverflowError
    | f => Ok f
    end.

(** The float 5.0: the mantissa is 5 * 2^50, the exponent -50. *)
Definition float_5 : spec_float := S754_finite false 5629499534213120 (-50).

(** [v / scale] for an int [scale], as in [info[name] /= scale]. *)
Definition truediv (v : pyval) (scale : Z) : result pyval :=
  match v with
  | PInt a => f ←! int_true_divide a scale; Ok (PFloat f)
  | PFloat x =>
      y ←! float_of_int scale;
      if scale =? 0 then Raise ZeroDivisionError
      else Ok (PFloat (SFdiv prec emax x y))
  | PStr _ | PDict _ => Raise TypeError
  end.

(** An int in the range of a [uint256], the type of the fetched views. *)
Definition is_uint256 (v : pyval) : bool :=
  match v with
  | PInt a => (0 <=? a) && (a <? 2 ^ 256)
  | _ => false
  end.

(** [x * v] for a float [x]. *)
Definition float_mul (x : spec_float) (v : pyval) : result pyval :=
  match v with
  | PInt b => y ←! float_of_int b; Ok (PFloat (SFmul prec emax x y))
  | PFloat y => Ok (PFloat (SFmul prec emax x y))
  | PStr _ | PDict _ => Raise TypeError
  end.

(** ** The vault snapshot *)

Definition VAULT_VIEWS_SCALED : list string := [
  "totalAssets";
  "maxAvailableShares";
  "pricePerShare";
  "debtOutstanding";
  "creditAvailable";
  "expectedReturn";
  "totalSupply";
  "availableDepositLimit";
  "depositLimit";
  "totalDebt";
  "debtLimit"
].

(** A strategy, as far as [describe] uses it: [strat.name] and the mapping
    [strat.describe()] returns. *)
Record Strategy := {
  strat_name : string;
  strat_describe : pydict
}.

Record VaultV2 := {
  name : string;
  api_version : string;
  vault : Contract;
  strategies : list Strategy;
  _views : list string
}.

(** The condition of the comprehension in [__post_init__];
    [x["outputs"][0]] raises on a function without outputs. *)
Definition is_numeric_view (x : AbiEntry) : result bool :=
  if bool_decide (abi_type x = "function")
     && bool_decide (abi_stateMutability x = "view")
     && match abi_inputs x with [] => true | _ => false end
  then
    match abi_outputs x with
    | [] => Raise IndexError
    | o :: _ => Ok (bool_decide (param_type o = "uint256"))
    end
  else Ok false.

Fixpoint numeric_views (entries : list AbiEntry) : result (list string) :=
  match entries with
  | [] => Ok []
  | x :: rest =>
      keep ←! is_numeric_view x;
      views ←! numeric_views rest;
      Ok (if keep : bool then abi_name x :: views else views)
  end.

(** [VaultV2(name=..., api_version=..., vault=..., strategies=...)], with
    [__post_init__]. *)
Definition VaultV2_init (n v : string) (c : Contract) (strats : list Strategy)
  : result VaultV2 :=
  views ←! numeric_views (abi c);
  Ok {| name := n; api_version := v; vault := c; strategies := strats;
        _views := views |}.

(** [[[self.vault, view] for view in self._views]], the calls of the batch *)
Definition view_calls (self : VaultV2) : list (Contract * string) :=
  List.map (fun view => (vault self, view)) (_views self).

(** The keys [describe] writes itself, next to the fetched views. *)
Definition section_keys : list string := ["strategies"; "token price"; "tvl"].

(** [try: body except cls: handler] *)
Definition try_except {A} (body : result A) (cls : string) (handler : exn → result A)
  : result A :=
  match body with
  | Ok a => Ok a
  | Raise e => if isinstance e cls then handler e else Raise e
  end.

(** [for name in info: if name in VAULT_VIEWS_SCALED: info[name] /= scale],
    over the keys [keys] of [info]. *)
Fixpoint scale_views (scale : Z) (keys : list string) (info : pydict)
  : result pydict :=
  match keys with
  | [] => Ok info
  | k :: rest =>
      if bool_decide (k ∈ VAULT_VIEWS_SCALED) then
        v ←! dict_getitem info k;
        q ←! truediv v scale;
        scale_views scale rest (dict_set info k q)
      else scale_views scale rest info
  end.

(** [for strat in self.strategies:
       info["strategies"][strat.name] = strat.describe()] *)
Fixpoint nest_strategies (strats : list Strategy) (info : pydict) : result pydict :=
  match strats with
  | [] => Ok info
  | strat :: rest =>
      let out := strat_describe strat in
      target ←! dict_getitem info "strategies";
      match target with
      | PDict d =>
          nest_strategies rest
            (dict_set info "strategies" (PDict (dict_set d (strat_name strat) (PDict out))))
      | _ => Raise TypeError
      end
  end.

(** The strategies section after the loop over the strategies. *)
Definition strategies_section (strats : list Strategy) (d0 : pydict) : pydict :=
  fold_left (fun d s => dict_set d (strat_name s) (PDict (strat_describe s)))
    strats d0.

(** ** Selecting the events of a batch *)

(** A [NewGovernance] event. *)
Definition governance_event (evt : Event) : bool :=
  bool_decide (evt_name evt = "NewGovernance").

(** A [NewRelease] event for the api version [v]. *)
Definition release_for (v : string) (evt : Event) : bool :=
  bool_decide (evt_name evt = "NewRelease")
  && bool_decide (evt_args evt !! "api_version" = Some v).

(** An event whose [api_version] field is [v]. *)
Definition of_api_version (v : string) (evt : Event) : bool :=
  bool_decide (evt_args evt !! "api_version" = Some v).

(** A [VaultTagged] event for the vault address [a]. *)
Definition tagged_for (a : string) (evt : Event) : bool :=
  bool_decide (evt_name evt = "VaultTagged")
  && bool_decide (evt_args evt !! "vault" = Some a).

(** ** Selecting the entries of an ABI *)

(** A function of the ABI that is a view without inputs. *)
Definition zero_arg_view (x : AbiEntry) : bool :=
  bool_decide (abi_type x = "function")
  && bool_decide (abi_stateMutability x = "view")
  && match abi_inputs x with [] => true | _ => false end.

(** The first output of the entry, if any, is a [uint256]. *)
Definition returns_uint256 (x : AbiEntry) : bool :=
  match abi_outputs x with
  | o :: _ => bool_decide (param_type o = "uint256")
  | [] => false
  end.

(** The entry has no output at all. *)
Definition returns_nothing (x : AbiEntry) : bool :=
  match abi_outputs x with
  | [] => true
  | _ :: _ => false
  end.

(** ** Comprehensions *)

(** [[f(x) for x in l]], with the exception of the first [f(x)] that raises *)
Fixpoint mapM {A B} (f : A → result B) (l : list A) : result (list B) :=
  match l with
  | [] => Ok []
  | x :: rest =>
      y ←! f x;
      ys ←! mapM f rest;
      Ok (y :: ys)
  end.

(** ** A sample deployment

    One registry, one release, one vault: the end-to-end scenario of the
    spec, used to run the operations on concrete inputs. *)

Definition uint256_view (n : string) : AbiEntry :=
  {| abi_name := n; abi_type := "function"; abi_stateMutability := "view";
     abi_inputs := [];
     abi_outputs := [{| param_name := "" ; param_type := "uint256" |}] |}.

Definition sample_abi : list AbiEntry := [
  uint256_view "totalAssets";
  uint256_view "activation";
  {| abi_name := "deposit"; abi_type := "function";
     abi_stateMutability := "nonpayable";
     abi_inputs := [{| param_name := "_amount"; param_type := "uint256" |}];
     abi_outputs := [{| param_name := ""; param_type := "uint256" |}] |};
  {| abi_name := "symbol"; abi_type := "function";
     abi_stateMutability := "view"; abi_inputs := [];
     abi_outputs := [{| param_name := ""; param_type := "string" |}] |}
].

Definition sample_Contract_at (addr : string) : Contract :=
  mkContract "Vault" addr sample_abi.

Definition sample_symbol (c : Contract) : string := "yvDAI".

Definition sample_ens_resolve (n : string) : string := "0xregistry".

Definition event_of (n : string) (number : Z) (fields : list (string * string))
  : Event :=
  {| evt_name := n; block_number := number; evt_args := list_to_map fields |}.

Definition sample_release : Event :=
  event_of "NewRelease" 100 [("api_version", "0.3.0"); ("template", "0xtemplateX")].

Definition sample_vault_created : Event :=
  event_of "NewVault" 120 [("api_version", "0.3.0"); ("vault", "0xvaultY")].

Definition sample_tagged : Event :=
  event_of "VaultTagged" 150 [("vault", "0xvaultY"); ("tag", "stable")].

Definition sample_transfer : Event :=
  event_of "Transfer" 151 [("value", "1")].

Definition sample_fetch_events (c : Contract) : list Event :=
  [sample_release; sample_vault_created].

Definition sample_ledger : list Log := [
  {| log_address := "0xregistry"; log_block := 100; log_event := sample_release |};
  {| log_address := "0xregistry"; log_block := 120; log_event := sample_vault_created |};
  {| log_address := "0xelsewhere"; log_block := 130; log_event := sample_transfer |};
  {| log_address := "0xregistry"; log_block := 150; log_event := sample_tagged |};
  {| log_address := "0xregistry"; log_block := 151; log_event := sample_transfer |}
].

(** The registry once the release is applied, with the cursor on block 100. *)
Definition sample_registry : Registry :=
  {| registry := sample_Contract_at "0xregistry"; governance := None;
     api_versions := {[ "0.3.0" := sample_Contract_at "0xtemplateX" ]};
     vaults := ∅; names := ∅; endorsed := ∅; tags := ∅;
     events := [sample_release]; last_block := Some 100 |}.

(** The registry before any event, with the cursor on block 99. *)
Definition sample_registry_empty : Registry :=
  {| registry := sample_Contract_at "0xregistry"; governance := None;
     api_versions := ∅; vaults := ∅; names := ∅; endorsed := ∅; tags := ∅;
     events := []; last_block := Some 99 |}.

Definition sample_unreachable : exn :=
  Exn "ConnectionError" ["OSError"; "Exception"] "connection refused".

Definition sample_reverted : exn :=
  Exn "ValueError" ["Exception"] "execution reverted".

Definition sample_vaultY : Contract :=
  Contract_from_abi "Vault v0.3.0" "0xvaultY" sample_abi.

(** The same registry with the vault created. *)
Definition sample_registry_created : Registry :=
  set_name "0xvaultY" "yvDAI 0.3.0" (set_vault "0xvaultY" sample_vaultY sample_registry).

(** The same registry with the vault created and tagged. *)
Definition sample_registry_tagged : Registry :=
  set_tag "0xvaultY" "stable" sample_registry_created.

Definition sample_decimals (c : Contract) : N := 6%N.

Definition sample_token (c : Contract) : string := "0xdai".

(** The float 1.0 *)
Definition float_1 : spec_float := S754_finite false 4503599627370496 (-52).

Definition sample_token_price (t : string) : spec_float := float_1.

Definition sample_strategy : Strategy :=
  {| strat_name := "StrategyLender";
     strat_describe := [("debtLimit", PInt 1000)] |}.

Definition sample_vault : VaultV2 :=
  {| name := "yvDAI 0.3.0"; api_version := "0.3.0"; vault := sample_vaultY;
     strategies := [sample_strategy];
     _views := ["totalAssets"; "activation"] |}.

(** A vault whose ABI has a numeric view called [tvl]. *)
Definition sample_contract_tvl : Contract :=
  Contract_from_abi "Vault v0.3.0" "0xvaultZ"
    [uint256_view "totalAssets"; uint256_view "tvl"].

Definition sample_vault_tvl : VaultV2 :=
  {| name := "yvDAI 0.3.0"; api_version := "0.3.0"; vault := sample_contract_tvl;
     strategies := []; _views := ["totalAssets"; "tvl"] |}.

(** The batch call answers. *)
Definition sample_fetch_multicall (calls : list (Contract * string))
  : result (list pyval) :=
  Ok [PInt 5000000; PInt 7].

(** The batch call fails the way a reverted call does. *)
Definition sample_fetch_reverted (calls : list (Contract * string))
  : result (list pyval) :=
  Raise sample_reverted.

(** The batch call fails for want of a connection. *)
Definition sample_fetch_unreachable (calls : list (Contract * string))
  : result (list pyval) :=
  Raise sample_unreachable.

(** What [describe] returns for [sample_vault] when the batch call answers. *)
Definition sample_snapshot : pydict := [
  ("totalAssets", PFloat float_5);
  ("activation", PInt 7);
  ("strategies", PDict [("StrategyLender", PDict [("debtLimit", PInt 1000)])]);
  ("token price", PFloat float_1);
  ("tvl", PFloat float_5)
].

(** ** More of the sample deployment *)

Definition sample_governance : Event :=
  event_of "NewGovernance" 90 [("governance", "0xgov")].

Definition sample_governance_again : Event :=
  event_of "NewGovernance" 95 [("governance", "0xgov2")].

Definition sample_release_again : Event :=
  event_of "NewRelease" 140 [("api_version", "0.3.0"); ("template", "0xtemplateZ")].


Definition sample_tagged_again : Event :=
  event_of "VaultTagged" 152 [("vault", "0xvaultY"); ("tag", "deprecated")].

Definition sample_experimental_created : Event :=
  event_of "NewExperimentalVault" 120 [("api_version", "0.3.0"); ("vault", "0xvaultY")].

(** The registry [__init__] builds from [sample_fetch_events]. *)
Definition sample_registry_init : Registry :=
  {| registry := sample_Contract_at "0xregistry"; governance := None;
     api_versions := {[ "0.3.0" := sample_Contract_at "0xtemplateX" ]};
     vaults := {[ "0xvaultY" := sample_vaultY ]};
     names := {[ "0xvaultY" := "yvDAI 0.3.0" ]};
     endorsed := ∅; tags := ∅;
     events := [sample_release; sample_vault_created];
     last_block := Some 120 |}.

(** A history that has the creation of the vault before its release. *)
Definition sample_fetch_events_reversed (c : Contract) : list Event :=
  [sample_vault_created; sample_release].


(** The events of a name, raising when there is none. *)
Definition sample_events_getitem (evts : list Event) (n : string)
  : result (list Event) :=
  match List.filter (fun evt => bool_decide (evt_name evt = n)) evts with
  | [] => Raise (EventLookupError n)
  | found => Ok found
  end.

Definition sample_format_value (v : pyval) : string :=
  match v with
  | PStr s => s
  | _ => "?"
  end.

(** The batch call answers every call with the symbol of the sample vault. *)
Definition sample_fetch_symbols (calls : list (Contract * string))
  : result (list pyval) :=
  Ok (List.map (fun _ => PStr "yvDAI") calls).

(** The sample vault as [get_vaults] lists it. *)
Definition sample_listed_vault : VaultV2 :=
  {| name := "yvDAI 0.3.0"; api_version := "0.3.0"; vault := sample_vaultY;
     strategies := []; _views := ["totalAssets"; "activation"] |}.

(** ** The operations *)

Section Exporter.

(** [Contract(address)]: the handle the explorer gives for an address. *)
Variable Contract_at : string → Contract.
(** [vault.symbol()] *)
Variable symbol : Contract → string.
(** [web3.ens.resolve(name)] *)
Variable ens_resolve : string → string.
(** [fetch_events(registry)] *)
Variable fetch_events : Contract → list Event.
(** The logs of the chain that [get_logs] reads. *)
Variable ledger : list Log.

(** [self.api_versions[v]] *)
Definition api_versions_getitem (self : Registry) (v : string) : result Contract :=
  match api_versions self !! v with
  | Some c => Ok c
  | None => Raise (KeyError v)
  end.

(** The body of the [for evt in events] loop of [process_events].  The
    subscripts [evt['vault']] and [evt['api_version']], which the source
    repeats, are read once each, in the order of their first use. *)
Definition process_event (evt : Event) (self : Registry) : result Registry :=
  if bool_decide (evt_name evt = "NewGovernance") then
    g ←! evt_getitem evt "governance";
    Ok (set_governance g self)
  else if bool_decide (evt_name evt = "NewRelease") then
    v ←! evt_getitem evt "api_version";
    t ←! evt_getitem evt "template";
    Ok (set_api_version v (Contract_at t) self)
  else if bool_decide (evt_name evt ∈ ["NewVault"; "NewExperimentalVault"]) then
    a ←! evt_getitem evt "vault";
    if bool_decide (is_Some (vaults self !! a)) then Ok self
    else
      v ←! evt_getitem evt "api_version";
      release ←! api_versions_getitem self v;
      let vault := Contract_from_abi ("Vault v" +:+ v) a (abi release) in
      Ok (set_name a (symbol vault +:+ " " +:+ v) (set_vault a vault self))
  else if bool_decide (evt_name evt = "VaultTagged") then
    a ←! evt_getitem evt "vault";
    t ←! evt_getitem evt "tag";
    Ok (set_tag a t self)
  else
    Raise (UnknownEvent (evt_name evt)).

(** [process_events]: the registry as mutated so far, and the exception
    that stopped the loop, if any. *)
Fixpoint process_events (evts : list Event) (self : Registry)
  : Registry * option exn :=
  match evts with
  | [] => (self, None)
  | evt :: rest =>
      match process_event evt self with
      | Ok self' => process_events rest self'
      | Raise e => (self, Some e)
      end
  end.

(** The registry [__init__] starts from, before any event is applied. *)
Definition initial_registry : Registry :=
  let reg := Contract_at (ens_resolve "v2.registry.ychad.eth") in
  {| registry := reg; governance := None; api_versions := ∅; vaults := ∅;
     names := ∅; endorsed := ∅; tags := ∅; events := fetch_events reg;
     last_block := None |}.

(** [Registry.__init__], up to the start of the watch thread.  An exception
    leaves no registry object behind. *)
Definition Registry_init : result Registry :=
  let self := initial_registry in
  match process_events (events self) self with
  | (self, Some e) => Raise e
  | (self, None) =>
      match last (events self) with
      | Some evt => Ok (set_last_block (block_number evt) self)
      | None => Raise IndexError
      end
  end.

(** One turn of the [for block in chain.new_blocks(...)] loop of
    [watch_events], for the block height [number]. *)
Definition watch_block (number : Z) (self : Registry) : Registry * option exn :=
  match last_block self with
  | None => (self, Some (AttributeError "last_block"))
  | Some l =>
      let logs := get_logs ledger (address (registry self)) (l + 1) number in
      match process_events (decode_logs logs) self with
      | (self, None) => (set_last_block number self, None)
      | (self, Some e) => (self, Some e)
      end
  end.

(** [watch_events] over the block heights the feed delivers; an exception
    ends the loop. *)
Fixpoint watch_events (blocks : list Z) (self : Registry) : Registry * option exn :=
  match blocks with
  | [] => (self, None)
  | number :: rest =>
      match watch_block number self with
      | (self, None) => watch_events rest self
      | (self, Some e) => (self, Some e)
      end
  end.

(** [vault.decimals()] *)
Variable decimals : Contract → N.
(** [vault.token()] *)
Variable token : Contract → string.
(** [uniswap.token_price(token)] *)
Variable token_price : string → spec_float.
(** [fetch_multicall], on the list of its calls *)
Variable fetch_multicall : list (Contract * string) → result (list pyval).

(** The [try] block of [describe]. *)
Definition fetch_views (self : VaultV2) (scale : Z) : result pydict :=
  results ←! fetch_multicall (view_calls self);
  let info := dict_of (zip (_views self) results) in
  info ←! scale_views scale (dict_keys info) info;
  Ok (dict_set info "strategies" (PDict [])).

(** [VaultV2.describe] *)
Definition describe (self : VaultV2) : result pydict :=
  let scale := 10 ^ Z.of_N (decimals (vault self)) in
  info ←! try_except (fetch_views self scale) "ValueError"
            (fun e => Ok [("strategies", PDict [])]);
  info ←! nest_strategies (strategies self) info;
  let price := token_price (token (vault self)) in
  let info := dict_set info "token price" (PFloat price) in
  if dict_contains info "totalAssets" then
    assets ←! dict_getitem info "totalAssets";
    tvl ←! float_mul price assets;
    Ok (dict_set info "tvl" tvl)
  else Ok info.

(** [events[name]], the events of that name in a list of decoded events *)
Variable events_getitem : list Event → string → result (list Event).
(** [f'{value}'], the text of a value in a formatted string *)
Variable format_value : pyval → string.

(** [{x["api_version"]: Contract(x["template"]).abi for x in releases}],
    added to [versions] *)
Fixpoint release_abis (releases : list Event) (versions : gmap string (list AbiEntry))
  : result (gmap string (list AbiEntry)) :=
  match releases with
  | [] => Ok versions
  | x :: rest =>
      v ←! evt_getitem x "api_version";
      t ←! evt_getitem x "template";
      release_abis rest (<[v := abi (Contract_at t)]> versions)
  end.

(** [Contract.from_abi(f'Vault v{vault["api_version"]}', vault["vault"],
    versions[vault["api_version"]])] *)
Definition vault_handle (versions : gmap string (list AbiEntry)) (vault : Event)
  : result Contract :=
  v ←! evt_getitem vault "api_version";
  a ←! evt_getitem vault "vault";
  abi ←! match versions !! v with
         | Some abi => Ok abi
         | None => Raise (KeyError v)
         end;
  Ok (Contract_from_abi ("Vault v" +:+ v) a abi).

(** [f'{name} {vault["api_version"]}'] *)
Definition vault_name (vault_and_name : Event * pyval) : result string :=
  v ←! evt_getitem (fst vault_and_name) "api_version";
  Ok (format_value (snd vault_and_name) +:+ " " +:+ v).

(** [VaultV2(name=name, api_version=event["api_version"], vault=vault,
    strategies=[])] *)
Definition listed_vault (item : string * Contract * Event) : result VaultV2 :=
  v ←! evt_getitem (snd item) "api_version";
  VaultV2_init (fst (fst item)) v (snd (fst item)) [].

(** [get_vaults].  [events[event_key]], which the source writes three
    times, is read once. *)
Definition get_vaults (event_key : string) : result (list VaultV2) :=
  let reg := Contract_at "v2.registry.ychad.eth" in
  let evts := fetch_events reg in
  releases ←! events_getitem evts "NewRelease";
  versions ←! release_abis releases ∅;
  created ←! events_getitem evts event_key;
  handles ←! mapM (vault_handle versions) created;
  symbols ←! fetch_multicall (List.map (fun x => (x, "symbol")) handles);
  vault_names ←! mapM vault_name (zip created symbols);
  mapM listed_vault (zip (zip vault_names handles) created).

(** [get_experimental_vaults] *)
Definition get_experimental_vaults : result (list VaultV2) :=
  get_vaults "NewExperimentalVault".

(** [tauto] on the goal and the hypotheses about it, leaving the
    collaborators the goal does not mention out of the proof. *)
Ltac local_tauto :=
  try clear Contract_at; try clear symbol; try clear ens_resolve;
  try clear fetch_events; try clear ledger; try clear decimals;
  try clear token; try clear token_price; try clear fetch_multicall;
  try clear events_getitem; try clear format_value;
  tauto.

(** *** Lemmas on the event loop *)

Lemma process_events_app pre post self :
  process_events (pre ++ post) self =
  match process_events pre self with
  | (s, None) => process_events post s
  | (s, Some e) => (s, Some e)
  end.
Proof.
  revert self. induction pre as [|evt pre IH]; intros self; simpl.
  - reflexivity.
  - destruct (process_event evt self); [apply IH | reflexivity].
Qed.

Lemma process_event_last_block evt self self' :
  process_event evt self = Ok self' → last_block self' = last_block self.
Proof.
  unfold process_event, bind, evt_getitem, api_versions_getitem.
  repeat case_bool_decide; repeat case_match; intros; simplify_eq; reflexivity.
Qed.

Lemma process_events_last_block evts self self' r :
  process_events evts self = (self', r) → last_block self' = last_block self.
Proof.
  revert self. induction evts as [|evt evts IH]; intros self; simpl.
  - intros; simplify_eq; reflexivity.
  - destruct (process_event evt self) as [s|e] eqn:E.
    + intros H. rewrite (IH _ H). eapply process_event_last_block, E.
    + intros; simplify_eq; reflexivity.
Qed.

(** A raising batch stops at one event: the ones before it were applied,
    that one raised, the ones after it were not looked at. *)
Lemma process_events_raise evts self self' e :
  process_events evts self = (self', Some e) →
  ∃ pre evt post,
    evts = pre ++ evt :: post
    ∧ process_events pre self = (self', None)
    ∧ process_event evt self' = Raise e.
Proof.
  revert self. induction evts as [|evt evts IH]; intros self; simpl.
  - intros; simplify_eq.
  - destruct (process_event evt self) as [s|e'] eqn:E.
    + intros H. destruct (IH _ H) as (pre & evt' & post & -> & Hpre & Hevt).
      exists (evt :: pre), evt', post. simpl. rewrite E. auto.
    + intros; simplify_eq. exists [], evt, evts. auto.
Qed.

Lemma process_events_stop pre evt post self s e :
  process_events pre self = (s, None) →
  process_event evt s = Raise e →
  process_events (pre ++ evt :: post) self = (s, Some e).
Proof.
  intros Hpre Hevt. rewrite process_events_app, Hpre. simpl.
  rewrite Hevt. reflexivity.
Qed.

(** Neither [__init__] nor the watch loop catches what [process_events]
    raises. *)
Lemma Registry_init_raise s e :
  process_events (events initial_registry) initial_registry = (s, Some e) →
  Registry_init = Raise e.
Proof. unfold Registry_init. intros ->. reflexivity. Qed.

Lemma watch_block_propagates number self l s e :
  last_block self = Some l →
  process_events
    (decode_logs (get_logs ledger (address (registry self)) (l + 1) number)) self
    = (s, Some e) →
  watch_block number self = (s, Some e).
Proof. unfold watch_block. intros -> ->. reflexivity. Qed.

Lemma watch_events_propagates number rest self s e :
  watch_block number self = (s, Some e) →
  watch_events (number :: rest) self = (s, Some e).
Proof. simpl. intros ->. reflexivity. Qed.

(** *** The registry claims *)

Lemma vault_created_dispatch evt :
  evt_name evt ∈ ["NewVault"; "NewExperimentalVault"] →
  evt_name evt ≠ "NewGovernance" ∧ evt_name evt ≠ "NewRelease".
Proof.
  intros Hin. split; intros Heq; rewrite Heq in Hin;
    apply list_elem_of_In in Hin; simpl in Hin;
    destruct Hin as [?|[?|[]]]; discriminate.
Qed.

(** The step of [process_event] on a creation event. *)
Lemma process_event_vault_created evt self a :
  evt_name evt ∈ ["NewVault"; "NewExperimentalVault"] →
  evt_args evt !! "vault" = Some a →
  process_event evt self =
  if bool_decide (is_Some (vaults self !! a)) then Ok self
  else
    v ←! evt_getitem evt "api_version";
    release ←! api_versions_getitem self v;
    let vault := Contract_from_abi ("Vault v" +:+ v) a (abi release) in
    Ok (set_name a (symbol vault +:+ " " +:+ v) (set_vault a vault self)).
Proof.
  intros Hin Ha. destruct (vault_created_dispatch _ Hin) as [Hg Hr].
  unfold process_event.
  rewrite (bool_decide_eq_false_2 _ Hg), (bool_decide_eq_false_2 _ Hr),
    (bool_decide_eq_true_2 _ Hin).
  unfold evt_getitem at 1. rewrite Ha. reflexivity.
Qed.

(** C1, as the code has it: a creation event for a new vault address whose
    api version has a release records the display name
    [<symbol> <apiVersion>], the vault's symbol and the event's api version
    separated by one space.  The letter v stands in the name of the contract
    handle only. *)
Theorem new_vault_display_name evt self a v release :
  evt_name evt ∈ ["NewVault"; "NewExperimentalVault"] →
  evt_args evt !! "vault" = Some a →
  evt_args evt !! "api_version" = Some v →
  api_versions self !! v = Some release →
  vaults self !! a = None →
  let vault := Contract_from_abi ("Vault v" +:+ v) a (abi release) in
  ∃ self',
    process_event evt self = Ok self'
    ∧ vaults self' !! a = Some vault
    ∧ names self' !! a = Some (symbol vault +:+ " " +:+ v).
Proof.
  intros Hin Ha Hv Hrel Hnew vault.
  rewrite (process_event_vault_created _ _ _ Hin Ha).
  rewrite bool_decide_eq_false_2 by (rewrite Hnew; apply is_Some_None).
  unfold evt_getitem, api_versions_getitem. rewrite Hv. simpl. rewrite Hrel. simpl.
  eexists. split; [reflexivity|]. simpl. split; apply lookup_insert_eq.
Qed.

(** C3: when the feed delivers the block height [number] and the cursor is
    [l < number], the turn of the watch loop fetches the registry's logs of
    the blocks in (l, number], in chain order, applies them, and sets the
    cursor to [number]; with no log in the range it sets the cursor all the
    same.  (A batch that raises is the matter of C8.) *)
Theorem watch_block_advances number self l :
  last_block self = Some l →
  l < number →
  let logs := get_logs ledger (address (registry self)) (l + 1) number in
  logs = List.filter
           (fun lg => bool_decide (log_address lg = address (registry self)
                                   ∧ l < log_block lg ≤ number)) ledger
  ∧ (∀ s, process_events (decode_logs logs) self = (s, None) →
          watch_block number self = (set_last_block number s, None)
          ∧ last_block (fst (watch_block number self)) = Some number)
  ∧ (logs = [] →
     watch_block number self = (set_last_block number self, None)).
Proof.
  intros Hl Hlt logs. split; [|split].
  - unfold logs, get_logs. apply filter_ext. intros lg.
    destruct (decide (log_address lg = address (registry self))) as [Ha|Ha].
    + rewrite (bool_decide_eq_true_2 _ Ha). simpl.
      destruct (Z.leb_spec (l + 1) (log_block lg)), (Z.leb_spec (log_block lg) number);
        simpl; symmetry;
        first [ apply bool_decide_eq_true_2; split; [assumption | lia]
              | apply bool_decide_eq_false_2; intros [_ ?]; lia ].
    + rewrite (bool_decide_eq_false_2 _ Ha). simpl. symmetry.
      apply bool_decide_eq_false_2. intros [? _]. contradiction.
  - intros s Hs. unfold watch_block. rewrite Hl. fold logs. rewrite Hs.
    split; reflexivity.
  - intros Hnil. unfold watch_block. rewrite Hl. fold logs. rewrite Hnil.
    reflexivity.
Qed.

(** C4: a release followed by the creation of a vault of that release
    applies; a creation event for a new vault address whose api version has
    no release raises [KeyError] (the spec's MissingRelease), also when the
    two events come in the reverse order, and neither [process_events] nor
    the watch loop nor [__init__] catches it. *)
Theorem release_before_vault self e1 e2 v1 t a :
  evt_name e1 = "NewRelease" →
  evt_args e1 !! "api_version" = Some v1 →
  evt_args e1 !! "template" = Some t →
  evt_name e2 ∈ ["NewVault"; "NewExperimentalVault"] →
  evt_args e2 !! "api_version" = Some v1 →
  evt_args e2 !! "vault" = Some a →
  (∃ self', process_events [e1; e2] self = (self', None)
            ∧ is_Some (vaults self' !! a))
  ∧ (vaults self !! a = None → api_versions self !! v1 = None →
     process_event e2 self = Raise (KeyError v1)
     ∧ process_events [e2; e1] self = (self, Some (KeyError v1))
     ∧ (∀ pre post s0,
          process_events pre s0 = (self, None) →
          process_events (pre ++ e2 :: post) s0 = (self, Some (KeyError v1)))
     ∧ (∀ number l rest,
          last_block self = Some l →
          decode_logs (get_logs ledger (address (registry self)) (l + 1) number)
            = e2 :: rest →
          watch_block number self = (self, Some (KeyError v1))
          ∧ ∀ more, watch_events (number :: more) self = (self, Some (KeyError v1))))
  ∧ (∀ rest, events initial_registry = e2 :: rest →
             Registry_init = Raise (KeyError v1)).
Proof.
  intros Hn1 Hv1 Ht Hn2 Hv2 Ha.
  assert (Hraise : ∀ s, vaults s !! a = None → api_versions s !! v1 = None →
                        process_event e2 s = Raise (KeyError v1)).
  { intros s Hnew Hnone.
    rewrite (process_event_vault_created _ _ _ Hn2 Ha).
    rewrite bool_decide_eq_false_2 by (rewrite Hnew; apply is_Some_None).
    unfold evt_getitem, api_versions_getitem. rewrite Hv2. simpl.
    rewrite Hnone. reflexivity. }
  split; [|split].
  - assert (H1 : process_event e1 self = Ok (set_api_version v1 (Contract_at t) self)).
    { unfold process_event. rewrite Hn1. simpl.
      unfold evt_getitem. rewrite Hv1, Ht. reflexivity. }
    simpl. rewrite H1.
    rewrite (process_event_vault_created _ _ _ Hn2 Ha).
    case_bool_decide as Hknown.
    + eexists. split; [reflexivity | exact Hknown].
    + unfold evt_getitem, api_versions_getitem. rewrite Hv2. simpl.
      rewrite lookup_insert_eq. simpl.
      eexists. split; [reflexivity|]. simpl. rewrite lookup_insert_eq. eauto.
  - intros Hnew Hnone. pose proof (Hraise self Hnew Hnone) as Hr.
    split; [exact Hr|]. split; [simpl; rewrite Hr; reflexivity|].
    split.
    + intros pre post s0 Hpre. eapply process_events_stop; eassumption.
    + intros number l rest Hl Hbatch.
      assert (Hw : watch_block number self = (self, Some (KeyError v1))).
      { eapply watch_block_propagates; [exact Hl|].
        rewrite Hbatch. simpl. rewrite Hr. reflexivity. }
      split; [exact Hw|]. intros more. apply watch_events_propagates, Hw.
  - intros rest Hevts. apply (Registry_init_raise initial_registry).
    rewrite Hevts. simpl. rewrite Hraise; [reflexivity| |]; apply lookup_empty.
Qed.

(** C5: an event whose name is none of the five known ones raises
    [UnknownEvent] (the spec's UnknownEventKind); the batch stops there, and
    [__init__] and the watch loop let the exception through. *)
Theorem unknown_event_raises evt :
  evt_name evt ∉ ["NewGovernance"; "NewRelease"; "NewVault";
                  "NewExperimentalVault"; "VaultTagged"] →
  (∀ self, process_event evt self = Raise (UnknownEvent (evt_name evt)))
  ∧ (∀ pre post self s,
       process_events pre self = (s, None) →
       process_events (pre ++ evt :: post) self
         = (s, Some (UnknownEvent (evt_name evt))))
  ∧ (∀ pre post s,
       events initial_registry = pre ++ evt :: post →
       process_events pre initial_registry = (s, None) →
       Registry_init = Raise (UnknownEvent (evt_name evt)))
  ∧ (∀ number self l pre post s,
       last_block self = Some l →
       decode_logs (get_logs ledger (address (registry self)) (l + 1) number)
         = pre ++ evt :: post →
       process_events pre self = (s, None) →
       watch_block number self = (s, Some (UnknownEvent (evt_name evt)))
       ∧ ∀ more, watch_events (number :: more) self
                 = (s, Some (UnknownEvent (evt_name evt)))).
Proof.
  intros Hout.
  assert (Hraise : ∀ self, process_event evt self = Raise (UnknownEvent (evt_name evt))).
  { rewrite !not_elem_of_cons in Hout.
    destruct Hout as (Hg & Hr & Hv1 & Hv2 & Ht & _).
    assert (Hv : evt_name evt ∉ ["NewVault"; "NewExperimentalVault"])
      by (rewrite !not_elem_of_cons; repeat split; [assumption.. | apply not_elem_of_nil]).
    intros self. unfold process_event.
    rewrite (bool_decide_eq_false_2 _ Hg), (bool_decide_eq_false_2 _ Hr),
      (bool_decide_eq_false_2 _ Hv), (bool_decide_eq_false_2 _ Ht).
    reflexivity. }
  split; [exact Hraise|]. split; [|split].
  - intros pre post self s Hpre. eapply process_events_stop; [exact Hpre | apply Hraise].
  - intros pre post s Hevts Hpre. apply (Registry_init_raise s).
    rewrite Hevts. eapply process_events_stop; [exact Hpre | apply Hraise].
  - intros number self l pre post s Hl Hbatch Hpre.
    assert (Hw : watch_block number self = (s, Some (UnknownEvent (evt_name evt)))).
    { eapply watch_block_propagates; [exact Hl|]. rewrite Hbatch.
      eapply process_events_stop; [exact Hpre | apply Hraise]. }
    split; [exact Hw|]. intros more. apply watch_events_propagates, Hw.
Qed.

(** C6: a creation event that applies to a registry applies to the result
    as well and leaves it as it is, so that applying the event twice gives
    the registry that applying it once gives; on a registry that knows the
    vault address already the event changes nothing at all. *)
Theorem vault_created_idempotent evt self self1 :
  evt_name evt ∈ ["NewVault"; "NewExperimentalVault"] →
  process_event evt self = Ok self1 →
  process_event evt self1 = Ok self1
  ∧ process_events [evt; evt] self = process_events [evt] self
  ∧ (∀ a, evt_args evt !! "vault" = Some a →
          is_Some (vaults self !! a) → self1 = self).
Proof.
  intros Hin Hone.
  destruct (evt_args evt !! "vault") as [a|] eqn:Ha.
  2:{ destruct (vault_created_dispatch _ Hin) as [Hg Hr].
      unfold process_event in Hone.
      rewrite (bool_decide_eq_false_2 _ Hg), (bool_decide_eq_false_2 _ Hr),
        (bool_decide_eq_true_2 _ Hin) in Hone.
      unfold evt_getitem in Hone. rewrite Ha in Hone. discriminate. }
  assert (Hknown : is_Some (vaults self1 !! a)).
  { rewrite (process_event_vault_created _ _ _ Hin Ha) in Hone.
    case_bool_decide as Hk; [by simplify_eq|].
    destruct (evt_getitem evt "api_version"); [|discriminate]. simpl in Hone.
    destruct (api_versions_getitem self a0); [|discriminate]. simpl in Hone.
    simplify_eq. simpl. rewrite lookup_insert_eq. eauto. }
  assert (Htwice : process_event evt self1 = Ok self1).
  { rewrite (process_event_vault_created _ _ _ Hin Ha).
    rewrite (bool_decide_eq_true_2 _ Hknown). reflexivity. }
  split; [exact Htwice|]. split.
  - simpl. rewrite Hone, Htwice. reflexivity.
  - intros a' Ha' Hk. simplify_eq.
    rewrite (process_event_vault_created _ _ _ Hin Ha) in Hone.
    rewrite (bool_decide_eq_true_2 _ Hk) in Hone. by simplify_eq.
Qed.

(** C8: when the batch of a turn of the watch loop raises (be it
    [UnknownEvent], the [KeyError] of a missing release, or anything else),
    the loop stops at the event that raised: the events before it are
    applied, the ones after it are not, the exception leaves the loop, and
    the cursor keeps the value it had. *)
Theorem watch_block_halts number self l s e :
  last_block self = Some l →
  process_events
    (decode_logs (get_logs ledger (address (registry self)) (l + 1) number)) self
    = (s, Some e) →
  watch_block number self = (s, Some e)
  ∧ last_block s = Some l
  ∧ (∃ pre evt post,
       decode_logs (get_logs ledger (address (registry self)) (l + 1) number)
         = pre ++ evt :: post
       ∧ process_events pre self = (s, None)
       ∧ process_event evt s = Raise e)
  ∧ (∀ more, watch_events (number :: more) self = (s, Some e)).
Proof.
  intros Hl Hbatch.
  pose proof (watch_block_propagates _ _ _ _ _ Hl Hbatch) as Hw.
  split; [exact Hw|]. split; [|split].
  - rewrite <- Hl. eapply process_events_last_block, Hbatch.
  - apply process_events_raise, Hbatch.
  - intros more. apply watch_events_propagates, Hw.
Qed.

(** *** Lemmas on dicts *)

Lemma dict_get_set d k v k' :
  dict_get (dict_set d k v) k' = if bool_decide (k = k') then Some v else dict_get d k'.
Proof.
  induction d as [|[k0 v0] d IH]; simpl.
  - reflexivity.
  - destruct (decide (k0 = k)) as [->|Hne].
    + rewrite (bool_decide_eq_true_2 (k = k)) by reflexivity. simpl.
      repeat case_bool_decide; congruence.
    + rewrite (bool_decide_eq_false_2 _ Hne). simpl. rewrite IH.
      repeat case_bool_decide; congruence.
Qed.

Lemma dict_get_set_eq d k v : dict_get (dict_set d k v) k = Some v.
Proof. rewrite dict_get_set, bool_decide_eq_true_2; reflexivity. Qed.

Lemma dict_get_set_ne d k v k' :
  k ≠ k' → dict_get (dict_set d k v) k' = dict_get d k'.
Proof. intros Hne. rewrite dict_get_set, bool_decide_eq_false_2; done. Qed.

Lemma dict_set_set d k v v' : dict_set (dict_set d k v) k v' = dict_set d k v'.
Proof.
  induction d as [|[k0 v0] d IH]; simpl.
  - rewrite bool_decide_eq_true_2; reflexivity.
  - case_bool_decide as Hk; simpl.
    + rewrite bool_decide_eq_true_2; reflexivity.
    + rewrite (bool_decide_eq_false_2 _ Hk), IH. reflexivity.
Qed.

Lemma dict_set_id d k v : dict_get d k = Some v → dict_set d k v = d.
Proof.
  induction d as [|[k0 v0] d IH]; simpl; [discriminate|].
  case_bool_decide as Hk.
  - intros; simplify_eq. reflexivity.
  - intros Hd. rewrite (IH Hd). reflexivity.
Qed.

Lemma dict_get_keys d k : is_Some (dict_get d k) ↔ k ∈ dict_keys d.
Proof.
  induction d as [|[k0 v0] d IH]; simpl.
  - rewrite elem_of_nil. split; [intros [? ?]; discriminate | local_tauto].
  - rewrite elem_of_cons. case_bool_decide as Hk.
    + split; eauto.
    + rewrite IH. split; [local_tauto | intros [?|?]; congruence].
Qed.

Lemma dict_keys_set_known d k v :
  k ∈ dict_keys d → dict_keys (dict_set d k v) = dict_keys d.
Proof.
  induction d as [|[k0 v0] d IH]; simpl.
  - rewrite elem_of_nil. local_tauto.
  - rewrite elem_of_cons. case_bool_decide as Hk; simpl.
    + intros _. congruence.
    + intros [?|Hin]; [congruence|]. rewrite (IH Hin). reflexivity.
Qed.

Lemma dict_keys_set_new d k v :
  k ∉ dict_keys d → dict_keys (dict_set d k v) = dict_keys d ++ [k].
Proof.
  induction d as [|[k0 v0] d IH]; simpl.
  - reflexivity.
  - rewrite not_elem_of_cons. intros [Hne Hnin].
    rewrite bool_decide_eq_false_2 by congruence. simpl.
    rewrite (IH Hnin). reflexivity.
Qed.

Lemma dict_set_NoDup d k v :
  NoDup (dict_keys d) → NoDup (dict_keys (dict_set d k v)).
Proof.
  intros Hd. destruct (decide (k ∈ dict_keys d)) as [Hin|Hnin].
  - rewrite dict_keys_set_known; assumption.
  - rewrite dict_keys_set_new by assumption.
    apply NoDup_app. split; [assumption|]. split.
    + intros x Hx Hk. apply list_elem_of_singleton in Hk. congruence.
    + apply NoDup_singleton.
Qed.

Lemma dict_of_NoDup pairs : NoDup (dict_keys (dict_of pairs)).
Proof.
  unfold dict_of. generalize (NoDup_nil_2 (A := string)).
  change (@nil string) with (dict_keys []).
  generalize (@nil (string * pyval)) as d.
  induction pairs as [|[k v] pairs IH]; intros d Hd; simpl.
  - exact Hd.
  - apply IH, dict_set_NoDup, Hd.
Qed.

(** *** Lemmas on the float arithmetic *)

Lemma digits2_pos_size p : digits2_pos p = Pos.size p.
Proof. induction p; simpl; congruence. Qed.

Lemma Zdigits2_gt m : 0 <= m -> m < 2 ^ Zdigits2 m.
Proof.
  destruct m as [|p|p]; simpl; [lia | | lia]. intros _.
  rewrite digits2_pos_size. pose proof (Pos.size_gt p) as H.
  apply Pos2Z.pos_lt_pos in H. rewrite Pos2Z.inj_pow in H. exact H.
Qed.

Lemma Zdigits2_le m k : 0 <= k -> 0 <= m < 2 ^ k -> Zdigits2 m <= k.
Proof.
  intros Hk [Hm Hlt]. destruct m as [|p|p]; simpl; [lia | | lia].
  rewrite digits2_pos_size. pose proof (Pos.size_le p) as H.
  destruct (Z.le_gt_cases (Z.pos (Pos.size p)) k) as [|Hgt]; [assumption|].
  exfalso.
  assert (H2 : 2 ^ Z.pos (Pos.size p) <= 2 * Z.pos p).
  { apply Pos2Z.pos_le_pos in H. rewrite Pos2Z.inj_pow in H. exact H. }
  assert (H3 : 2 ^ (k + 1) <= 2 ^ Z.pos (Pos.size p))
    by (apply Z.pow_le_mono_r; lia).
  rewrite Z.pow_add_r in H3 by lia. lia.
Qed.

Lemma shr_1_m mrs : 0 <= shr_m mrs -> 0 <= shr_m (shr_1 mrs) /\ 2 * shr_m (shr_1 mrs) <= shr_m mrs.
Proof.
  destruct mrs as [m r s]. simpl. destruct m as [|[p|p|]|p]; simpl; lia.
Qed.

Lemma iter_shr_1_m p mrs :
  0 <= shr_m mrs ->
  0 <= shr_m (SpecFloat.iter_pos shr_1 p mrs) /\ 2 ^ Z.pos p * shr_m (SpecFloat.iter_pos shr_1 p mrs) <= shr_m mrs.
Proof.
  revert mrs. induction p as [p IH|p IH|]; intros mrs Hm; simpl SpecFloat.iter_pos.
  - destruct (shr_1_m mrs Hm) as [H0 H1].
    destruct (IH _ H0) as [H2 H3]. destruct (IH _ H2) as [H4 H5].
    split; [assumption|].
    replace (Z.pos p~1) with (Z.pos p + Z.pos p + 1) by lia.
    rewrite !Z.pow_add_r by lia. change (2 ^ 1) with 2.
    assert (0 < 2 ^ Z.pos p) by (apply Z.pow_pos_nonneg; lia). nia.
  - destruct (IH _ Hm) as [H2 H3]. destruct (IH _ H2) as [H4 H5].
    split; [assumption|].
    replace (Z.pos p~0) with (Z.pos p + Z.pos p) by lia.
    rewrite !Z.pow_add_r by lia.
    assert (0 < 2 ^ Z.pos p) by (apply Z.pow_pos_nonneg; lia). nia.
  - destruct (shr_1_m mrs Hm). change (2 ^ 1) with 2. lia.
Qed.

Lemma shr_record_of_loc_m m l : shr_m (shr_record_of_loc m l) = m.
Proof. destruct l as [|[]]; reflexivity. Qed.

(** After [shr_fexp] the exponent is the larger of the old one and the one
    of the format, and the mantissa fits the precision. *)
Lemma shr_fexp_bounds m e l mrs e' :
  0 <= m ->
  shr_fexp prec emax m e l = (mrs, e') ->
  e' = Z.max e (fexp prec emax (Zdigits2 m + e))
  /\ 0 <= shr_m mrs < 2 ^ prec.
Proof.
  intros Hm. unfold shr_fexp, shr.
  pose proof (Zdigits2_gt m Hm) as Hd.
  assert (Hfexp : Zdigits2 m + e - prec <= fexp prec emax (Zdigits2 m + e))
    by (unfold fexp; lia).
  assert (Hdig : 0 <= Zdigits2 m) by (destruct m; simpl; lia).
  destruct (fexp prec emax (Zdigits2 m + e) - e) as [|n|n] eqn:Hn;
    intros Heq; injection Heq as <- <-.
  - split; [lia|]. rewrite shr_record_of_loc_m. split; [assumption|].
    eapply Z.lt_le_trans; [exact Hd|]. apply Z.pow_le_mono_r; lia.
  - split; [lia|].
    destruct (iter_shr_1_m n (shr_record_of_loc m l)) as [H0 H1];
      [rewrite shr_record_of_loc_m; assumption|].
    rewrite shr_record_of_loc_m in H1. split; [assumption|].
    assert (Hpow : 2 ^ Zdigits2 m <= 2 ^ Z.pos n * 2 ^ prec).
    { rewrite <- Z.pow_add_r by (unfold prec; lia).
      apply Z.pow_le_mono_r; lia. }
    assert (0 < 2 ^ Z.pos n) by (apply Z.pow_pos_nonneg; lia).
    nia.
  - split; [lia|]. rewrite shr_record_of_loc_m. split; [assumption|].
    eapply Z.lt_le_trans; [exact Hd|]. apply Z.pow_le_mono_r; lia.
Qed.

Lemma round_nearest_even_bounds m l :
  0 <= m -> 0 <= round_nearest_even m l <= m + 1.
Proof.
  intros Hm. destruct l as [|[]]; simpl; try lia.
  destruct (Z.even m); lia.
Qed.

(** Rounding a mantissa whose value is below 2^1000 does not overflow. *)
Lemma binary_round_aux_finite s m e l :
  0 <= m -> Zdigits2 m + e <= 1000 -> e <= 900 ->
  forall s', binary_round_aux prec emax s m e l <> S754_infinity s'.
Proof.
  intros Hm Hde He s'. unfold binary_round_aux.
  destruct (shr_fexp prec emax m e l) as [mrs1 e1] eqn:H1.
  destruct (shr_fexp_bounds _ _ _ _ _ Hm H1) as (He1 & Hm1a & Hm1b).
  set (m1 := round_nearest_even (shr_m mrs1) (loc_of_shr_record mrs1)).
  destruct (round_nearest_even_bounds (shr_m mrs1) (loc_of_shr_record mrs1) Hm1a)
    as [Hr0 Hr1]. fold m1 in Hr0, Hr1.
  destruct (shr_fexp prec emax m1 e1 loc_Exact) as [mrs2 e2] eqn:H2.
  destruct (shr_fexp_bounds _ _ _ _ _ Hr0 H2) as (He2 & _).
  assert (Hd1 : Zdigits2 m1 <= prec + 1).
  { apply Zdigits2_le; [unfold prec; lia|]. split; [assumption|].
    rewrite Z.pow_add_r by (unfold prec; lia). change (2 ^ 1) with 2. lia. }
  assert (Hbound : e2 <= emax - prec).
  { unfold fexp, emin, prec, emax in *. lia. }
  destruct (shr_m mrs2); try discriminate.
  apply Z.leb_le in Hbound. rewrite Hbound. discriminate.
Qed.

Lemma int_true_divide_uint256 a b :
  0 <= a < 2 ^ 256 -> 0 < b ->
  exists f, int_true_divide a b = Ok f.
Proof.
  intros [Ha0 Ha] Hb. unfold int_true_divide.
  rewrite (proj2 (Z.eqb_neq b 0)) by lia.
  rewrite (Z.abs_eq a), (Z.abs_eq b) by lia.
  unfold SFdiv_core_binary.
  set (e' := Z.min _ _).
  assert (He' : e' <= 0) by (unfold e'; lia).
  set (m' := match 0 - 0 - e' with Z.pos _ => _ | _ => _ end).
  assert (Hm' : 0 <= m' < 2 ^ (256 - e')).
  { assert (Hpow : 0 < 2 ^ (- e')) by (apply Z.pow_pos_nonneg; lia).
    assert (Hsplit : 2 ^ (256 - e') = 2 ^ 256 * 2 ^ (- e')).
    { rewrite <- Z.pow_add_r by lia. reflexivity. }
    unfold m'. destruct (0 - 0 - e') as [|n|n] eqn:Hs.
    - rewrite Hsplit. nia.
    - rewrite Z.shiftl_mul_pow2 by lia. rewrite Hsplit.
      replace (Z.pos n) with (- e') by lia. nia.
    - lia. }
  destruct (Z.div_eucl m' b) as [q r] eqn:Hdiv.
  pose proof (Z_div_mod m' b ltac:(lia)) as Hspec. rewrite Hdiv in Hspec.
  destruct Hspec as [Hq Hr].
  assert (Hq0 : 0 <= q <= m') by nia.
  assert (Hdig : Zdigits2 q <= 256 - e') by (apply Zdigits2_le; lia).
  pose proof (binary_round_aux_finite (xorb (a <? 0) (b <? 0)) q e'
                (new_location b r) ltac:(lia) ltac:(lia) ltac:(lia)) as Hfin.
  destruct (binary_round_aux _ _ _ q e' _) as [z|i| |sg m e] eqn:Hround.
  - eexists; reflexivity.
  - destruct (Hfin i). reflexivity.
  - eexists; reflexivity.
  - eexists; reflexivity.
Qed.

Lemma truediv_uint256 v scale :
  is_uint256 v = true → 0 < scale →
  ∃ f, truediv v scale = Ok (PFloat f).
Proof.
  destruct v as [a| | |]; simpl; try discriminate.
  intros Ha Hs. apply andb_true_iff in Ha as [Ha0 Ha1].
  apply Z.leb_le in Ha0. apply Z.ltb_lt in Ha1.
  destruct (int_true_divide_uint256 a scale) as [f Hf]; [lia | lia |].
  exists f. rewrite Hf. reflexivity.
Qed.

(** *** Lemmas on the snapshot *)

Lemma float_of_int_raise z e :
  float_of_int z = Raise e → isinstance e "ValueError" = false.
Proof.
  unfold float_of_int. destruct (binary_normalize prec emax z 0 false);
    intros; simplify_eq; reflexivity.
Qed.

Lemma int_true_divide_raise a b e :
  int_true_divide a b = Raise e → isinstance e "ValueError" = false.
Proof.
  unfold int_true_divide. destruct (b =? 0); [intros; simplify_eq; reflexivity|].
  destruct (SFdiv_core_binary _ _ _ _ _ _) as [[q ex] l].
  destruct (binary_round_aux _ _ _ _ _ _); intros; simplify_eq; reflexivity.
Qed.

Lemma truediv_raise v scale e :
  truediv v scale = Raise e → isinstance e "ValueError" = false.
Proof.
  destruct v as [a|x|?|?]; simpl.
  - destruct (int_true_divide a scale) eqn:E; simpl; [discriminate|].
    intros; simplify_eq. eapply int_true_divide_raise, E.
  - destruct (float_of_int scale) eqn:E; simpl.
    + destruct (scale =? 0); intros; simplify_eq; reflexivity.
    + intros; simplify_eq. eapply float_of_int_raise, E.
  - intros; simplify_eq; reflexivity.
  - intros; simplify_eq; reflexivity.
Qed.

(** Whatever the scaling loop raises, it is no [ValueError]. *)
Lemma scale_views_raise scale keys info e :
  scale_views scale keys info = Raise e → isinstance e "ValueError" = false.
Proof.
  revert info. induction keys as [|k keys IH]; intros info; simpl; [discriminate|].
  case_bool_decide; [|apply IH].
  unfold dict_getitem. destruct (dict_get info k) as [v|]; simpl.
  - destruct (truediv v scale) eqn:E; simpl; [apply IH|].
    intros; simplify_eq. eapply truediv_raise, E.
  - intros; simplify_eq; reflexivity.
Qed.

(** What the scaling loop leaves under each key. *)
Lemma scale_views_get scale keys info out :
  NoDup keys →
  scale_views scale keys info = Ok out →
  ∀ k,
    (k ∈ keys → k ∈ VAULT_VIEWS_SCALED →
     ∃ v q, dict_get info k = Some v ∧ truediv v scale = Ok q
            ∧ dict_get out k = Some q)
    ∧ (k ∉ keys ∨ k ∉ VAULT_VIEWS_SCALED → dict_get out k = dict_get info k).
Proof.
  intros Hnd. revert info. induction Hnd as [|k0 keys Hk0 Hnd IH]; intros info; simpl.
  - intros; simplify_eq. split; [rewrite elem_of_nil; local_tauto | reflexivity].
  - case_bool_decide as Hs.
    + unfold dict_getitem. destruct (dict_get info k0) as [v|] eqn:Hv; [|discriminate].
      simpl. destruct (truediv v scale) as [q|] eqn:Hq; [|discriminate]. simpl.
      intros Hrest k. destruct (IH _ Hrest k) as [IH1 IH2]. split.
      * rewrite elem_of_cons. intros [->|Hin] Hsc.
        -- exists v, q. split; [assumption|]. split; [assumption|].
           rewrite IH2 by local_tauto. apply dict_get_set_eq.
        -- destruct (IH1 Hin Hsc) as (v' & q' & Hv' & Hq' & Hout).
           exists v', q'. rewrite dict_get_set_ne in Hv' by congruence. local_tauto.
      * rewrite not_elem_of_cons. intros Hk. rewrite IH2 by local_tauto.
        apply dict_get_set_ne. intros ->. local_tauto.
    + intros Hrest k. destruct (IH _ Hrest k) as [IH1 IH2]. split.
      * rewrite elem_of_cons. intros [->|Hin] Hsc; [contradiction | local_tauto].
      * rewrite not_elem_of_cons. intros Hk. apply IH2.
        destruct (decide (k ∈ keys)); local_tauto.
Qed.

Lemma nest_strategies_ok strats info d0 :
  dict_get info "strategies" = Some (PDict d0) →
  nest_strategies strats info
  = Ok (dict_set info "strategies" (PDict (strategies_section strats d0))).
Proof.
  revert info d0. induction strats as [|s strats IH]; intros info d0 Hd; simpl.
  - rewrite dict_set_id; [reflexivity | assumption].
  - unfold dict_getitem. rewrite Hd. simpl.
    rewrite (IH _ (dict_set d0 (strat_name s) (PDict (strat_describe s))))
      by apply dict_get_set_eq.
    rewrite dict_set_set. reflexivity.
Qed.

Lemma strategies_section_untouched strats d0 n :
  (∀ s, s ∈ strats → strat_name s ≠ n) →
  dict_get (strategies_section strats d0) n = dict_get d0 n.
Proof.
  revert d0. induction strats as [|s strats IH]; intros d0 Hn; simpl.
  - reflexivity.
  - unfold strategies_section in *. simpl. rewrite IH.
    + apply dict_get_set_ne, Hn. left.
    + intros s' Hs'. apply Hn. right. assumption.
Qed.

Lemma strategies_section_last pre s post d0 :
  (∀ s', s' ∈ post → strat_name s' ≠ strat_name s) →
  dict_get (strategies_section (pre ++ s :: post) d0) (strat_name s)
  = Some (PDict (strat_describe s)).
Proof.
  intros Hpost. unfold strategies_section. rewrite fold_left_app. simpl.
  fold (strategies_section post
          (dict_set (fold_left (fun d s0 => dict_set d (strat_name s0)
                                              (PDict (strat_describe s0))) pre d0)
             (strat_name s) (PDict (strat_describe s)))).
  rewrite strategies_section_untouched by assumption.
  apply dict_get_set_eq.
Qed.

Lemma strategies_section_keys strats d0 n :
  is_Some (dict_get (strategies_section strats d0) n) →
  is_Some (dict_get d0 n) ∨ ∃ s, s ∈ strats ∧ strat_name s = n.
Proof.
  revert d0. induction strats as [|s strats IH]; intros d0; simpl.
  - local_tauto.
  - unfold strategies_section in *. simpl. intros H.
    destruct (IH _ H) as [Hd|(s' & Hs' & Hn)].
    + rewrite dict_get_set in Hd. case_bool_decide.
      * right. exists s. split; [left | assumption].
      * local_tauto.
    + right. exists s'. split; [right; assumption | assumption].
Qed.

Lemma scaled_not_section_key n :
  n ∈ VAULT_VIEWS_SCALED → n ∉ section_keys.
Proof.
  unfold VAULT_VIEWS_SCALED, section_keys. intros Hs Hr.
  rewrite !elem_of_cons, elem_of_nil in Hr.
  rewrite !elem_of_cons, elem_of_nil in Hs.
  destruct Hr as [->|[->|[->|[]]]];
    repeat (destruct Hs as [Hs|Hs]; [discriminate|]); exact Hs.
Qed.

(** [describe] when the batch call raised a [ValueError]. *)
Lemma describe_on_value_error self e :
  fetch_multicall (view_calls self) = Raise e →
  isinstance e "ValueError" = true →
  describe self
  = Ok [("strategies", PDict (strategies_section (strategies self) []));
        ("token price", PFloat (token_price (token (vault self))))].
Proof.
  intros Hfetch Hval. unfold describe, fetch_views. rewrite Hfetch. simpl.
  rewrite Hval. simpl.
  rewrite (nest_strategies_ok _ _ []) by reflexivity.
  generalize (strategies_section (strategies self) []) as sect.
  generalize (token_price (token (vault self))) as price.
  reflexivity.
Qed.

(** [describe] when the batch call answered: the scaling loop went through,
    and the fetched views stay as that loop left them, but for the keys that
    [describe] writes itself. *)
Lemma describe_on_results self results out :
  fetch_multicall (view_calls self) = Ok results →
  describe self = Ok out →
  let fetched := dict_of (zip (_views self) results) in
  ∃ scaled,
    scale_views (10 ^ Z.of_N (decimals (vault self))) (dict_keys fetched) fetched
      = Ok scaled
    ∧ ∀ n, n ∉ section_keys → dict_get out n = dict_get scaled n.
Proof.
  intros Hfetch Hdesc fetched. unfold describe, fetch_views in Hdesc.
  rewrite Hfetch in Hdesc. simpl in Hdesc. fold fetched in Hdesc.
  destruct (scale_views _ (dict_keys fetched) fetched) as [scaled|e] eqn:Hsc.
  2:{ simpl in Hdesc. rewrite (scale_views_raise _ _ _ _ Hsc) in Hdesc.
      discriminate. }
  exists scaled. split; [reflexivity|]. simpl in Hdesc.
  rewrite (nest_strategies_ok _ _ []) in Hdesc by apply dict_get_set_eq.
  rewrite dict_set_set in Hdesc. simpl in Hdesc.
  intros n Hn. unfold section_keys in Hn. rewrite !not_elem_of_cons in Hn.
  destruct Hn as (Hn1 & Hn2 & Hn3 & _).
  destruct (dict_contains _ "totalAssets").
  - destruct (dict_getitem _ "totalAssets") as [assets|]; [|discriminate].
    simpl in Hdesc.
    destruct (float_mul _ assets) as [tvl|]; [|discriminate].
    simpl in Hdesc. simplify_eq.
    rewrite !dict_get_set_ne by congruence. reflexivity.
  - simplify_eq. rewrite !dict_get_set_ne by congruence. reflexivity.
Qed.

(** The values of [dict(zip(views, results))] are among the results. *)
Lemma dict_of_zip_values (P : pyval → Prop) views results :
  Forall P results →
  ∀ k v, dict_get (dict_of (zip views results)) k = Some v → P v.
Proof.
  intros Hres. unfold dict_of.
  assert (Hpairs : Forall (fun kv => P (snd kv)) (zip views results)).
  { revert views. induction Hres as [|r results Hr Hres IH]; intros [|w views];
      simpl; constructor; [exact Hr | apply IH]. }
  assert (Hnil : ∀ k v, dict_get [] k = Some v → P v) by (intros; discriminate).
  revert Hnil. generalize (@nil (string * pyval)) as d.
  induction Hpairs as [|[k0 v0] pairs Hkv Hpairs IH]; intros d Hd; simpl.
  - exact Hd.
  - apply IH. intros k v. rewrite dict_get_set. case_bool_decide.
    + intros; simplify_eq. exact Hkv.
    + apply Hd.
Qed.

(** On uint256 values the scaling loop raises nothing. *)
Lemma scale_views_returns scale keys info :
  0 < scale →
  NoDup keys →
  (∀ k, k ∈ keys → ∃ v, dict_get info k = Some v ∧ is_uint256 v = true) →
  ∃ out, scale_views scale keys info = Ok out.
Proof.
  intros Hscale Hnd. revert info.
  induction Hnd as [|k0 keys Hk0 Hnd IH]; intros info Hinfo; simpl.
  - eexists; reflexivity.
  - case_bool_decide.
    + destruct (Hinfo k0) as (v & Hv & Hu); [left|].
      unfold dict_getitem. rewrite Hv. simpl.
      destruct (truediv_uint256 _ _ Hu Hscale) as [f ->]. simpl.
      apply IH. intros k Hk. rewrite dict_get_set_ne by congruence.
      apply Hinfo. right. exact Hk.
    + apply IH. intros k Hk. apply Hinfo. right. exact Hk.
Qed.

(** [describe] returns when the batch call answers with uint256 values. *)
Lemma describe_returns self results :
  fetch_multicall (view_calls self) = Ok results →
  Forall (fun v => is_uint256 v = true) results →
  ∃ out, describe self = Ok out.
Proof.
  intros Hfetch Hres.
  set (scale := 10 ^ Z.of_N (decimals (vault self))).
  set (fetched := dict_of (zip (_views self) results)).
  assert (Hscale : 0 < scale) by (apply Z.pow_pos_nonneg; lia).
  pose proof (dict_of_zip_values _ (_views self) _ Hres) as Hvals.
  fold fetched in Hvals.
  destruct (scale_views_returns scale (dict_keys fetched) fetched Hscale
              (dict_of_NoDup _)) as [scaled Hsc].
  { intros k Hk. apply dict_get_keys in Hk as [v Hv]. eauto. }
  unfold describe, fetch_views. rewrite Hfetch. simpl.
  fold fetched. fold scale. rewrite Hsc. simpl.
  rewrite (nest_strategies_ok _ _ []) by apply dict_get_set_eq.
  rewrite dict_set_set. cbn [bind]. unfold dict_contains, dict_getitem.
  rewrite !dict_get_set_ne by discriminate.
  destruct (dict_get scaled "totalAssets") as [assets|] eqn:Hassets;
    [|eexists; reflexivity].
  assert (Hfloat : ∃ f, assets = PFloat f).
  { pose proof (scale_views_get _ _ _ _ (dict_of_NoDup _) Hsc "totalAssets")
      as [Hscaled Hother].
    destruct (decide ("totalAssets" ∈ dict_keys fetched)) as [Hin|Hout].
    - destruct Hscaled as (v & q & Hv & Hq & Hq'); [exact Hin | by left |].
      destruct (truediv_uint256 v scale (Hvals _ _ Hv) Hscale) as [f Hf].
      rewrite Hf in Hq. rewrite Hassets in Hq'. simplify_eq. eauto.
    - rewrite Hother in Hassets by (left; exact Hout).
      exfalso. apply Hout, dict_get_keys. rewrite Hassets. eauto. }
  destruct Hfloat as [f ->]. simpl. eexists; reflexivity.
Qed.

(** *** The snapshot claims *)

(** C2, as the code has it: when the batch call raises a [ValueError],
    [describe] raises nothing and returns a mapping with two top-level keys,
    [strategies] and [token price], in that order. *)
Theorem describe_degraded_keys self e :
  fetch_multicall (view_calls self) = Raise e →
  isinstance e "ValueError" = true →
  ∃ info,
    describe self = Ok info
    ∧ dict_keys info = ["strategies"; "token price"]
    ∧ dict_get info "token price"
      = Some (PFloat (token_price (token (vault self)))).
Proof.
  intros Hfetch Hval. eexists. split.
  - apply (describe_on_value_error _ _ Hfetch Hval).
  - split; reflexivity.
Qed.

(** C7, as the code has it: when the batch call answers, every fetched
    view whose name is in [VAULT_VIEWS_SCALED] is reported divided by
    [10 ** decimals], and every fetched view whose name is neither in that
    list nor one of the keys [strategies], [token price] and [tvl], which
    [describe] writes itself, is reported as fetched; with [decimals() = 6]
    and a raw [totalAssets] of 5_000_000 the report has [totalAssets = 5.0].
    There is a report whenever the fetched values are uint256 numbers. *)
Theorem describe_scaling self results :
  fetch_multicall (view_calls self) = Ok results →
  let scale := 10 ^ Z.of_N (decimals (vault self)) in
  let fetched := dict_of (zip (_views self) results) in
  (∀ out, describe self = Ok out →
     (∀ n raw, dict_get fetched n = Some raw →
        (n ∈ VAULT_VIEWS_SCALED →
         ∃ q, truediv raw scale = Ok q ∧ dict_get out n = Some q)
        ∧ (n ∉ VAULT_VIEWS_SCALED → n ∉ section_keys →
           dict_get out n = Some raw))
     ∧ (decimals (vault self) = 6%N →
        dict_get fetched "totalAssets" = Some (PInt 5000000) →
        dict_get out "totalAssets" = Some (PFloat float_5)))
  ∧ (Forall (fun v => is_uint256 v = true) results →
     ∃ out, describe self = Ok out).
Proof.
  intros Hfetch scale fetched. split; [|apply describe_returns, Hfetch].
  intros out Hdesc.
  destruct (describe_on_results _ _ _ Hfetch Hdesc) as (scaled & Hsc & Hout).
  fold fetched in Hsc. fold scale in Hsc.
  pose proof (scale_views_get _ _ _ _ (dict_of_NoDup _) Hsc) as Hget.
  assert (Hgen : ∀ n raw, dict_get fetched n = Some raw →
     (n ∈ VAULT_VIEWS_SCALED →
      ∃ q, truediv raw scale = Ok q ∧ dict_get out n = Some q)
     ∧ (n ∉ VAULT_VIEWS_SCALED → n ∉ section_keys → dict_get out n = Some raw)).
  { intros n raw Hraw. destruct (Hget n) as [Hs Hu]. split.
    - intros Hn.
      assert (Hkey : n ∈ dict_keys fetched)
        by (apply dict_get_keys; rewrite Hraw; eauto).
      destruct (Hs Hkey Hn) as (v & q & Hv & Hq & Hscaled).
      rewrite Hraw in Hv. simplify_eq. exists q. split; [assumption|].
      rewrite Hout by (apply scaled_not_section_key, Hn). assumption.
    - intros Hn Hkey. rewrite Hout by assumption.
      rewrite Hu by (right; exact Hn). assumption. }
  split; [exact Hgen|].
  intros Hdec Hraw. destruct (Hgen _ _ Hraw) as [Hs _].
  destruct Hs as (q & Hq & Hq').
  { unfold VAULT_VIEWS_SCALED. apply elem_of_cons. left. reflexivity. }
  unfold scale in Hq. rewrite Hdec in Hq. vm_compute in Hq. simplify_eq.
  exact Hq'.
Qed.

(** C9, as the code has it: when the batch call raises a [ValueError],
    [describe] returns a mapping with a [strategies] key; under it the
    [describe()] output of each strategy is stored under the strategy's name
    (for strategies of one name, the output of the last one), and no other
    name is; the mapping has no [tvl] and no [totalAssets] key. *)
Theorem describe_degraded_strategies self e :
  fetch_multicall (view_calls self) = Raise e →
  isinstance e "ValueError" = true →
  ∃ info sect,
    describe self = Ok info
    ∧ dict_get info "strategies" = Some (PDict sect)
    ∧ (∀ pre s post,
         strategies self = pre ++ s :: post →
         (∀ s', s' ∈ post → strat_name s' ≠ strat_name s) →
         dict_get sect (strat_name s) = Some (PDict (strat_describe s)))
    ∧ (∀ n, is_Some (dict_get sect n) →
            ∃ s, s ∈ strategies self ∧ strat_name s = n)
    ∧ dict_get info "tvl" = None
    ∧ dict_get info "totalAssets" = None.
Proof.
  intros Hfetch Hval.
  exists [("strategies", PDict (strategies_section (strategies self) []));
          ("token price", PFloat (token_price (token (vault self))))],
         (strategies_section (strategies self) []).
  split; [apply (describe_on_value_error _ _ Hfetch Hval)|].
  split; [reflexivity|]. split; [|split; [|split; reflexivity]].
  - intros pre s post -> Hpost. apply strategies_section_last, Hpost.
  - intros n Hn. destruct (strategies_section_keys _ _ _ Hn) as [[? ?]|?];
      [discriminate | assumption].
Qed.

(** C10: [describe] recovers from a [ValueError] of its [try] block and
    from nothing else.  An exception of another class, raised by the batch
    call or by the assembly of the results after it, leaves [describe]
    as it is; a [ValueError] of the batch call does not. *)
Theorem describe_catches_value_error_only self e :
  isinstance e "ValueError" = false →
  let scale := 10 ^ Z.of_N (decimals (vault self)) in
  (fetch_multicall (view_calls self) = Raise e → describe self = Raise e)
  ∧ (∀ results,
       fetch_multicall (view_calls self) = Ok results →
       let fetched := dict_of (zip (_views self) results) in
       scale_views scale (dict_keys fetched) fetched = Raise e →
       describe self = Raise e)
  ∧ (fetch_views self scale = Raise e → describe self = Raise e)
  ∧ (∀ e', isinstance e' "ValueError" = true →
           fetch_multicall (view_calls self) = Raise e' →
           ∃ info, describe self = Ok info).
Proof.
  intros Hother scale.
  assert (Htry : fetch_views self scale = Raise e → describe self = Raise e).
  { intros Hraise. unfold describe. fold scale. rewrite Hraise. simpl.
    rewrite Hother. reflexivity. }
  split; [|split; [|split]].
  - intros Hfetch. apply Htry. unfold fetch_views. rewrite Hfetch. reflexivity.
  - intros results Hfetch fetched Hsc. apply Htry. unfold fetch_views.
    rewrite Hfetch. simpl. fold fetched. rewrite Hsc. reflexivity.
  - exact Htry.
  - intros e' Hval Hfetch. eexists.
    apply (describe_on_value_error _ _ Hfetch Hval).
Qed.

(** *** More on the event loop *)

(** What a step of [process_event] that raises nothing has done. *)
Lemma process_event_inv evt s s' :
  process_event evt s = Ok s' →
  (evt_name evt = "NewGovernance"
   ∧ ∃ g, evt_args evt !! "governance" = Some g ∧ s' = set_governance g s)
  ∨ (evt_name evt = "NewRelease"
     ∧ ∃ v t, evt_args evt !! "api_version" = Some v
              ∧ evt_args evt !! "template" = Some t
              ∧ s' = set_api_version v (Contract_at t) s)
  ∨ (evt_name evt ∈ ["NewVault"; "NewExperimentalVault"]
     ∧ ∃ a, evt_args evt !! "vault" = Some a
            ∧ ((is_Some (vaults s !! a) ∧ s' = s)
               ∨ (vaults s !! a = None
                  ∧ ∃ v release,
                      evt_args evt !! "api_version" = Some v
                      ∧ api_versions s !! v = Some release
                      ∧ s' = set_name a
                               (symbol (Contract_from_abi ("Vault v" +:+ v) a (abi release))
                                +:+ " " +:+ v)
                               (set_vault a
                                  (Contract_from_abi ("Vault v" +:+ v) a (abi release))
                                  s))))
  ∨ (evt_name evt = "VaultTagged"
     ∧ ∃ a t, evt_args evt !! "vault" = Some a
              ∧ evt_args evt !! "tag" = Some t
              ∧ s' = set_tag a t s).
Proof.
  unfold process_event, evt_getitem, api_versions_getitem.
  case_bool_decide as Hg.
  { destruct (evt_args evt !! "governance") as [g|]; [|discriminate].
    simpl. intros; simplify_eq. left. split; [exact Hg|]. by exists g. }
  case_bool_decide as Hr.
  { destruct (evt_args evt !! "api_version") as [v|]; [|discriminate].
    destruct (evt_args evt !! "template") as [t|]; [|discriminate].
    simpl. intros; simplify_eq. right. left. split; [exact Hr|]. by exists v, t. }
  case_bool_decide as Hv.
  { destruct (evt_args evt !! "vault") as [a|]; [|discriminate]. simpl.
    intros H. right. right. left. split; [exact Hv|]. exists a.
    split; [reflexivity|]. case_bool_decide as Hk.
    - simplify_eq. left. by split.
    - right. split; [by apply eq_None_not_Some|].
      destruct (evt_args evt !! "api_version") as [v|]; [|discriminate].
      simpl in H.
      destruct (api_versions s !! v) as [release|] eqn:Hrel; [|discriminate].
      simpl in H. simplify_eq. by exists v, release. }
  case_bool_decide as Ht; [|discriminate].
  destruct (evt_args evt !! "vault") as [a|]; [|discriminate].
  destruct (evt_args evt !! "tag") as [t|]; [|discriminate].
  simpl. intros; simplify_eq. right. right. right. split; [exact Ht|].
  by exists a, t.
Qed.

Lemma vault_created_not_tagged evt :
  evt_name evt ∈ ["NewVault"; "NewExperimentalVault"] →
  evt_name evt ≠ "VaultTagged".
Proof.
  intros Hin Heq. rewrite Heq in Hin.
  apply list_elem_of_In in Hin. simpl in Hin.
  destruct Hin as [?|[?|[]]]; discriminate.
Qed.

(** A field of the registry that each event either overwrites or leaves
    alone holds, after a batch, what the last overwriting event wrote. *)
Lemma process_events_last_write {X} (field : Registry → X) (hit : Event → bool)
    (val : Event → X) :
  (∀ evt s s', process_event evt s = Ok s' →
               field s' = if hit evt then val evt else field s) →
  ∀ evts self self',
    process_events evts self = (self', None) →
    field self' = match last (List.filter hit evts) with
                  | Some evt => val evt
                  | None => field self
                  end.
Proof.
  intros Hstep evts. induction evts as [|evt evts IH]; intros self self'; simpl.
  - intros; simplify_eq. reflexivity.
  - destruct (process_event evt self) as [s1|] eqn:Hevt; [|discriminate].
    intros Hrest. rewrite (IH _ _ Hrest), (Hstep _ _ _ Hevt).
    destruct (hit evt); [|reflexivity].
    rewrite last_cons. destruct (last (List.filter hit evts)); reflexivity.
Qed.

(** X1: after a batch that applies, the tag of a vault address is the one
    of the last [VaultTagged] event of the batch for that address, and the
    tag it had before when the batch has none.  The address need not be a
    known vault. *)
Theorem tags_last_write_wins evts self self' a :
  process_events evts self = (self', None) →
  tags self' !! a = match last (List.filter (tagged_for a) evts) with
                    | Some evt => evt_args evt !! "tag"
                    | None => tags self !! a
                    end.
Proof.
  apply (process_events_last_write (fun s => tags s !! a)).
  intros evt s s' Hevt. unfold tagged_for.
  destruct (process_event_inv _ _ _ Hevt)
    as [(Hn & g & _ & ->)|[(Hn & v & t & _ & _ & ->)
       |[(Hn & a' & _ & [[_ ->]|(_ & v & rel & _ & _ & ->)])
        |(Hn & a' & t & Ha' & Ht & ->)]]].
  - rewrite (bool_decide_eq_false_2 (evt_name evt = _))
      by (rewrite Hn; discriminate). reflexivity.
  - rewrite (bool_decide_eq_false_2 (evt_name evt = _))
      by (rewrite Hn; discriminate). reflexivity.
  - rewrite (bool_decide_eq_false_2 (evt_name evt = _))
      by (apply vault_created_not_tagged, Hn). reflexivity.
  - rewrite (bool_decide_eq_false_2 (evt_name evt = _))
      by (apply vault_created_not_tagged, Hn). reflexivity.
  - rewrite (bool_decide_eq_true_2 _ Hn), Ha', Ht. simpl.
    case_bool_decide as Ha; simplify_eq.
    + apply lookup_insert_eq.
    + apply lookup_insert_ne. congruence.
Qed.

(** X2: after a batch that applies, the governance is the one of the last
    [NewGovernance] event of the batch, and the one before when the batch
    has none. *)
Theorem governance_last_write_wins evts self self' :
  process_events evts self = (self', None) →
  governance self' = match last (List.filter governance_event evts) with
                     | Some evt => evt_args evt !! "governance"
                     | None => governance self
                     end.
Proof.
  apply (process_events_last_write governance).
  intros evt s s' Hevt. unfold governance_event.
  destruct (process_event_inv _ _ _ Hevt)
    as [(Hn & g & Hg & ->)|[(Hn & v & t & _ & _ & ->)
       |[(Hn & a' & _ & [[_ ->]|(_ & v & rel & _ & _ & ->)])
        |(Hn & a' & t & _ & _ & ->)]]].
  - rewrite (bool_decide_eq_true_2 _ Hn), Hg. reflexivity.
  - rewrite bool_decide_eq_false_2 by (rewrite Hn; discriminate). reflexivity.
  - rewrite bool_decide_eq_false_2 by (apply vault_created_dispatch, Hn).
    reflexivity.
  - rewrite bool_decide_eq_false_2 by (apply vault_created_dispatch, Hn).
    reflexivity.
  - rewrite bool_decide_eq_false_2 by (rewrite Hn; discriminate). reflexivity.
Qed.

(** X3: after a batch that applies, the release of an api version is the
    handle of the template of the last [NewRelease] event of the batch for
    that version, and the release it had before when the batch has none. *)
Theorem releases_last_write_wins evts self self' v :
  process_events evts self = (self', None) →
  api_versions self' !! v
  = match last (List.filter (release_for v) evts) with
    | Some evt => Contract_at <$> evt_args evt !! "template"
    | None => api_versions self !! v
    end.
Proof.
  apply (process_events_last_write (fun s => api_versions s !! v)).
  intros evt s s' Hevt. unfold release_for.
  destruct (process_event_inv _ _ _ Hevt)
    as [(Hn & g & Hg & ->)|[(Hn & v' & t & Hv' & Ht & ->)
       |[(Hn & a' & _ & [[_ ->]|(_ & v' & rel & _ & _ & ->)])
        |(Hn & a' & t & _ & _ & ->)]]].
  - rewrite (bool_decide_eq_false_2 (evt_name evt = _))
      by (rewrite Hn; discriminate). reflexivity.
  - rewrite (bool_decide_eq_true_2 _ Hn), Hv', Ht. simpl.
    case_bool_decide as Hv; simplify_eq.
    + apply lookup_insert_eq.
    + apply lookup_insert_ne. congruence.
  - rewrite (bool_decide_eq_false_2 (evt_name evt = _))
      by (apply vault_created_dispatch, Hn). reflexivity.
  - rewrite (bool_decide_eq_false_2 (evt_name evt = _))
      by (apply vault_created_dispatch, Hn). reflexivity.
  - rewrite (bool_decide_eq_false_2 (evt_name evt = _))
      by (rewrite Hn; discriminate). reflexivity.
Qed.

Lemma process_event_never_forgets evt s s' :
  process_event evt s = Ok s' →
  (∀ a c, vaults s !! a = Some c →
          vaults s' !! a = Some c ∧ names s' !! a = names s !! a)
  ∧ (∀ v, is_Some (api_versions s !! v) → is_Some (api_versions s' !! v))
  ∧ (∀ a, is_Some (tags s !! a) → is_Some (tags s' !! a))
  ∧ (is_Some (governance s) → is_Some (governance s')).
Proof.
  intros Hevt.
  destruct (process_event_inv _ _ _ Hevt)
    as [(Hn & g & Hg & ->)|[(Hn & v' & t & Hv' & Ht & ->)
       |[(Hn & a' & _ & [[_ ->]|(Hnew & v' & rel & _ & _ & ->)])
        |(Hn & a' & t & _ & _ & ->)]]]; simpl.
  - repeat split; eauto.
  - repeat split; eauto. intros v Hv.
    destruct (decide (v' = v)) as [->|Hne].
    + rewrite lookup_insert_eq. eauto.
    + rewrite lookup_insert_ne by assumption. assumption.
  - repeat split; eauto.
  - repeat split; eauto.
    + rewrite lookup_insert_ne by congruence. assumption.
    + rewrite lookup_insert_ne by congruence. reflexivity.
  - repeat split; eauto. intros a Ha.
    destruct (decide (a' = a)) as [->|Hne].
    + rewrite lookup_insert_eq. eauto.
    + rewrite lookup_insert_ne by assumption. assumption.
Qed.

(** X4: no event removes anything.  Whatever a batch does, and also when it
    raises half-way, a vault address known before keeps its handle and its
    display name, and an api version, a tag and the governance that were set
    before are still set after. *)
Theorem registry_never_forgets evts self self' r :
  process_events evts self = (self', r) →
  (∀ a c, vaults self !! a = Some c →
          vaults self' !! a = Some c ∧ names self' !! a = names self !! a)
  ∧ (∀ v, is_Some (api_versions self !! v) → is_Some (api_versions self' !! v))
  ∧ (∀ a, is_Some (tags self !! a) → is_Some (tags self' !! a))
  ∧ (is_Some (governance self) → is_Some (governance self')).
Proof.
  revert self. induction evts as [|evt evts IH]; intros self; simpl.
  - intros; simplify_eq. repeat split; eauto.
  - destruct (process_event evt self) as [s1|e] eqn:Hevt.
    + intros Hrest.
      destruct (process_event_never_forgets _ _ _ Hevt) as (Hv1 & Hr1 & Ht1 & Hg1).
      destruct (IH _ Hrest) as (Hv2 & Hr2 & Ht2 & Hg2).
      split; [|split; [|split]].
      * intros a c Hc. destruct (Hv1 _ _ Hc) as [Hc1 Hn1].
        destruct (Hv2 _ _ Hc1) as [Hc2 Hn2]. split; congruence.
      * intros v Hv. apply Hr2, Hr1, Hv.
      * intros a Ha. apply Ht2, Ht1, Ha.
      * intros Hg. apply Hg2, Hg1, Hg.
    + intros; simplify_eq. repeat split; eauto.
Qed.

Lemma process_event_frame evt s s' :
  process_event evt s = Ok s' →
  registry s' = registry s ∧ events s' = events s ∧ endorsed s' = endorsed s.
Proof.
  intros Hevt.
  destruct (process_event_inv _ _ _ Hevt)
    as [(_ & g & _ & ->)|[(_ & v' & t & _ & _ & ->)
       |[(_ & a' & _ & [[_ ->]|(_ & v' & rel & _ & _ & ->)])
        |(_ & a' & t & _ & _ & ->)]]]; repeat split.
Qed.

Lemma process_events_frame evts self self' r :
  process_events evts self = (self', r) →
  registry self' = registry self ∧ events self' = events self
  ∧ endorsed self' = endorsed self.
Proof.
  revert self. induction evts as [|evt evts IH]; intros self; simpl.
  - intros; simplify_eq. repeat split.
  - destruct (process_event evt self) as [s1|e] eqn:Hevt.
    + intros Hrest. destruct (process_event_frame _ _ _ Hevt) as (Hr & He & Hd).
      rewrite <- Hr, <- He, <- Hd. apply IH, Hrest.
    + intros; simplify_eq. repeat split.
Qed.

Lemma watch_block_frame number self s r :
  watch_block number self = (s, r) →
  registry s = registry self ∧ events s = events self
  ∧ endorsed s = endorsed self.
Proof.
  unfold watch_block. destruct (last_block self) as [l|].
  - destruct (process_events _ self) as [s1 [e|]] eqn:Hbatch;
      intros; simplify_eq; apply (process_events_frame _ _ _ _ Hbatch).
  - intros; simplify_eq. repeat split.
Qed.

Lemma watch_events_frame blocks self s r :
  watch_events blocks self = (s, r) →
  registry s = registry self ∧ events s = events self
  ∧ endorsed s = endorsed self.
Proof.
  revert self. induction blocks as [|number blocks IH]; intros self; simpl.
  - intros; simplify_eq. repeat split.
  - destruct (watch_block number self) as [s1 [e|]] eqn:Hturn.
    + intros; simplify_eq. apply (watch_block_frame _ _ _ _ Hturn).
    + intros Hrest. destruct (watch_block_frame _ _ _ _ Hturn) as (Hr & He & Hd).
      rewrite <- Hr, <- He, <- Hd. apply IH, Hrest.
Qed.

Lemma Registry_init_inv self :
  Registry_init = Ok self →
  ∃ s evt,
    process_events (events initial_registry) initial_registry = (s, None)
    ∧ last (events initial_registry) = Some evt
    ∧ self = set_last_block (block_number evt) s.
Proof.
  unfold Registry_init.
  destruct (process_events _ initial_registry) as [s [e|]] eqn:Hbatch;
    [discriminate|].
  destruct (process_events_frame _ _ _ _ Hbatch) as (_ & Hevents & _).
  rewrite Hevents.
  destruct (last (events initial_registry)) as [evt|]; [|discriminate].
  intros; simplify_eq. by exists s, evt.
Qed.

(** X5: the watch loop leaves three attributes of the registry as
    [__init__] set them: the registry contract, the list [events] (the
    events of later blocks are applied, not appended to it) and [endorsed],
    which stays empty. *)
Theorem watch_keeps_history self0 blocks s r :
  Registry_init = Ok self0 →
  watch_events blocks self0 = (s, r) →
  registry s = Contract_at (ens_resolve "v2.registry.ychad.eth")
  ∧ events s = fetch_events (Contract_at (ens_resolve "v2.registry.ychad.eth"))
  ∧ endorsed s = ∅.
Proof.
  intros Hinit Hwatch.
  destruct (Registry_init_inv _ Hinit) as (s0 & evt & Hbatch & _ & ->).
  destruct (process_events_frame _ _ _ _ Hbatch) as (Hr & He & Hd).
  destruct (watch_events_frame _ _ _ _ Hwatch) as (-> & -> & ->).
  simpl. rewrite Hr, He, Hd. repeat split.
Qed.






Lemma get_logs_empty_range addr from_block to_block :
  to_block < from_block → get_logs ledger addr from_block to_block = [].
Proof.
  intros Hlt. unfold get_logs.
  induction ledger as [|lg logs IH]; simpl; [reflexivity|].
  destruct (Z.leb_spec from_block (log_block lg)),
           (Z.leb_spec (log_block lg) to_block);
    rewrite ?andb_false_r; simpl; first [exact IH | lia].
Qed.

(** X8: a block height at or below the cursor applies no log, and the
    cursor is set to that height all the same: the code does not keep the
    cursor from going back. *)
Theorem watch_block_at_or_below_cursor number self l :
  last_block self = Some l →
  number ≤ l →
  watch_block number self = (set_last_block number self, None).
Proof.
  intros Hl Hle. unfold watch_block. rewrite Hl.
  rewrite get_logs_empty_range by lia. reflexivity.
Qed.



Lemma process_event_set_last_block evt b s :
  process_event evt (set_last_block b s)
  = match process_event evt s with
    | Ok s' => Ok (set_last_block b s')
    | Raise e => Raise e
    end.
Proof.
  unfold process_event, evt_getitem, api_versions_getitem. simpl.
  destruct (evt_args evt !! "governance"), (evt_args evt !! "api_version") as [v|],
    (evt_args evt !! "template"), (evt_args evt !! "vault") as [a|],
    (evt_args evt !! "tag");
    simpl; repeat case_bool_decide; simpl; try reflexivity;
    destruct (api_versions s !! v); reflexivity.
Qed.

Lemma process_events_set_last_block evts b s :
  process_events evts (set_last_block b s)
  = (set_last_block b (fst (process_events evts s)), snd (process_events evts s)).
Proof.
  revert s. induction evts as [|evt evts IH]; intros s; simpl.
  - reflexivity.
  - rewrite process_event_set_last_block.
    destruct (process_event evt s) as [s'|e]; [apply IH | reflexivity].
Qed.

Lemma get_logs_split logs addr l h1 h2 :
  StronglySorted (fun x y => log_block x ≤ log_block y) logs →
  l ≤ h1 → h1 ≤ h2 →
  get_logs logs addr (l + 1) h2
  = get_logs logs addr (l + 1) h1 ++ get_logs logs addr (h1 + 1) h2.
Proof.
  intros Hsorted Hl Hh. unfold get_logs.
  induction Hsorted as [|x rest Hrest IH Hx]; simpl; [reflexivity|].
  assert (Hlate : h1 < log_block x →
    List.filter (fun lg => bool_decide (log_address lg = addr)
                           && (l + 1 <=? log_block lg) && (log_block lg <=? h1))
      rest = []).
  { intros Hb. clear IH Hrest. induction Hx as [|y rest Hy Hx IHx]; simpl;
      [reflexivity|].
    destruct (Z.leb_spec (log_block y) h1); [lia|].
    rewrite andb_false_r. exact IHx. }
  destruct (bool_decide (log_address x = addr)); simpl; [|exact IH].
  destruct (Z.leb_spec (l + 1) (log_block x)), (Z.leb_spec (log_block x) h2),
           (Z.leb_spec (log_block x) h1), (Z.leb_spec (h1 + 1) (log_block x));
    simpl; try lia; try (rewrite IH; reflexivity).
  rewrite IH, Hlate by lia. reflexivity.
Qed.

(** X10: on a ledger in block order, two turns of the watch loop, for the
    heights [number1] and then [number2], go through exactly when one turn
    for [number2] does, and leave the same registry: between turns no log
    is applied twice and none is skipped. *)
Theorem watch_turns_compose number1 number2 self l s2 :
  StronglySorted (fun x y => log_block x ≤ log_block y) ledger →
  last_block self = Some l →
  l ≤ number1 → number1 ≤ number2 →
  watch_block number2 self = (s2, None)
  ↔ ∃ s1, watch_block number1 self = (s1, None)
          ∧ watch_block number2 s1 = (s2, None).
Proof.
  intros Hsorted Hl H1 H2. unfold watch_block. rewrite Hl.
  rewrite (get_logs_split _ _ _ _ _ Hsorted H1 H2).
  unfold decode_logs. rewrite map_app. rewrite process_events_app.
  fold (decode_logs (get_logs ledger (address (registry self)) (l + 1) number1)).
  destruct (process_events
              (decode_logs (get_logs ledger (address (registry self)) (l + 1) number1))
              self) as [sa [e|]] eqn:Hfirst.
  - split; [discriminate|]. intros (s1 & Hs1 & _). discriminate.
  - destruct (process_events_frame _ _ _ _ Hfirst) as (Hreg & _ & _).
    split.
    + intros Hboth. exists (set_last_block number1 sa). split; [reflexivity|].
      simpl. rewrite Hreg, process_events_set_last_block.
      destruct (process_events _ sa) as [sb [e|]]; [discriminate|].
      simplify_eq. reflexivity.
    + intros (s1 & Hs1 & Hsecond). simplify_eq. simpl in Hsecond.
      rewrite Hreg, process_events_set_last_block in Hsecond.
      destruct (process_events _ sa) as [sb [e|]]; simpl in Hsecond;
        [discriminate|].
      simplify_eq. reflexivity.
Qed.

(** X11: the registry after [__init__] and a turn of the watch loop is the
    registry that one pass of [process_events] over the history followed by
    the logs of the turn builds from the empty registry, with the cursor on
    the height of the turn. *)
Theorem registry_replays_log self0 number s1 :
  Registry_init = Ok self0 →
  watch_block number self0 = (s1, None) →
  ∃ l s,
    last_block self0 = Some l
    ∧ process_events
        (events initial_registry
         ++ decode_logs (get_logs ledger (address (registry initial_registry))
                           (l + 1) number))
        initial_registry = (s, None)
    ∧ s1 = set_last_block number s.
Proof.
  intros Hinit Hturn.
  destruct (Registry_init_inv _ Hinit) as (s0 & evt & Hbatch & _ & ->).
  destruct (process_events_frame _ _ _ _ Hbatch) as (Hreg & _ & _).
  unfold watch_block in Hturn. simpl in Hturn.
  rewrite Hreg, process_events_set_last_block in Hturn.
  exists (block_number evt).
  destruct (process_events _ s0) as [sb [e|]] eqn:Hsecond; [discriminate|].
  exists sb. split; [reflexivity|]. split.
  - rewrite process_events_app, Hbatch. exact Hsecond.
  - simpl in Hturn. simplify_eq. reflexivity.
Qed.

(** *** More on the snapshot *)

Lemma numeric_views_filter entries :
  numeric_views entries
  = if existsb (fun x => zero_arg_view x && returns_nothing x) entries
    then Raise IndexError
    else Ok (List.map abi_name
               (List.filter (fun x => zero_arg_view x && returns_uint256 x)
                  entries)).
Proof.
  induction entries as [|x entries IH]; simpl; [reflexivity|].
  rewrite IH. unfold is_numeric_view, zero_arg_view, returns_nothing,
    returns_uint256.
  destruct (bool_decide (abi_type x = "function")
            && bool_decide (abi_stateMutability x = "view")
            && match abi_inputs x with [] => true | _ => false end);
    simpl.
  - destruct (abi_outputs x) as [|o outs]; simpl; [reflexivity|].
    destruct (existsb _ entries); simpl; [reflexivity|].
    destruct (bool_decide (param_type o = "uint256")); reflexivity.
  - destruct (existsb _ entries); reflexivity.
Qed.

(** X12: the views of a vault are the names, in the order of the ABI, of
    the view functions without inputs whose first output is a [uint256];
    the other outputs are not looked at.  When the ABI has a view function
    without inputs and without outputs, the construction of the vault raises
    [IndexError] instead. *)
Theorem numeric_views_spec n v c strats :
  VaultV2_init n v c strats
  = if existsb (fun x => zero_arg_view x && returns_nothing x) (abi c)
    then Raise IndexError
    else Ok {| name := n; api_version := v; vault := c; strategies := strats;
               _views := List.map abi_name
                           (List.filter
                              (fun x => zero_arg_view x && returns_uint256 x)
                              (abi c)) |}.
Proof.
  unfold VaultV2_init. rewrite numeric_views_filter.
  destruct (existsb _ (abi c)); reflexivity.
Qed.

Lemma fetch_views_strategies self scale info :
  try_except (fetch_views self scale) "ValueError"
    (fun e => Ok [("strategies", PDict [])]) = Ok info →
  dict_get info "strategies" = Some (PDict []).
Proof.
  unfold try_except, fetch_views.
  destruct (fetch_multicall (view_calls self)) as [results|e]; simpl.
  - destruct (scale_views _ _ _) as [scaled|e] eqn:Hsc; simpl.
    + intros; simplify_eq. apply dict_get_set_eq.
    + rewrite (scale_views_raise _ _ _ _ Hsc). discriminate.
  - destruct (isinstance e "ValueError"); [|discriminate].
    intros; simplify_eq. reflexivity.
Qed.

(** What [describe] has done when it returns. *)
Lemma describe_inv self out :
  describe self = Ok out →
  ∃ info,
    try_except (fetch_views self (10 ^ Z.of_N (decimals (vault self)))) "ValueError"
      (fun e => Ok [("strategies", PDict [])]) = Ok info
    ∧ let priced :=
        dict_set
          (dict_set info "strategies"
             (PDict (strategies_section (strategies self) [])))
          "token price" (PFloat (token_price (token (vault self)))) in
      match dict_get info "totalAssets" with
      | Some assets =>
          ∃ tvl, float_mul (token_price (token (vault self))) assets = Ok tvl
                 ∧ out = dict_set priced "tvl" tvl
      | None => out = priced
      end.
Proof.
  unfold describe.
  destruct (try_except _ _ _) as [info|] eqn:Htry; [|discriminate].
  cbn [bind]. rewrite (nest_strategies_ok _ _ [])
    by apply (fetch_views_strategies _ _ _ Htry).
  cbn [bind]. unfold dict_contains, dict_getitem.
  rewrite !dict_get_set_ne by discriminate.
  intros Hout. exists info. split; [reflexivity|]. cbv zeta.
  destruct (dict_get info "totalAssets") as [assets|]; cbn [bind] in Hout.
  - destruct (float_mul _ assets) as [tvl|]; [|discriminate].
    cbn [bind] in Hout. simplify_eq. by exists tvl.
  - by simplify_eq.
Qed.

(** X13: whenever [describe] returns, be it with the fetched views or
    without them, the snapshot has the [strategies] section, built from the
    strategies of the vault alone, and the [token price] of the vault's
    token. *)
Theorem describe_always_reports self out :
  describe self = Ok out →
  dict_get out "strategies"
  = Some (PDict (strategies_section (strategies self) []))
  ∧ dict_get out "token price"
    = Some (PFloat (token_price (token (vault self)))).
Proof.
  intros Hout. destruct (describe_inv _ _ Hout) as (info & _ & Hcase).
  cbv zeta in Hcase.
  destruct (dict_get info "totalAssets") as [assets|].
  - destruct Hcase as (tvl & _ & ->).
    rewrite !(dict_get_set_ne _ "tvl") by discriminate.
    rewrite (dict_get_set_ne _ "token price" _ "strategies") by discriminate.
    rewrite !dict_get_set_eq. split; reflexivity.
  - subst out.
    rewrite (dict_get_set_ne _ "token price" _ "strategies") by discriminate.
    rewrite !dict_get_set_eq. split; reflexivity.
Qed.

(** X14: [tvl] is written exactly when the snapshot reports [totalAssets],
    and is then the product of the token price and the reported, that is
    scaled, [totalAssets]; without [totalAssets] the key [tvl] is left as
    the fetched views have it. *)
Theorem describe_tvl self out :
  describe self = Ok out →
  match dict_get out "totalAssets" with
  | Some assets =>
      ∃ tvl, float_mul (token_price (token (vault self))) assets = Ok tvl
             ∧ dict_get out "tvl" = Some tvl
  | None =>
      ∀ results,
        fetch_multicall (view_calls self) = Ok results →
        dict_get out "tvl" = dict_get (dict_of (zip (_views self) results)) "tvl"
  end.
Proof.
  intros Hout. destruct (describe_inv _ _ Hout) as (info & Htry & Hcase).
  cbv zeta in Hcase.
  destruct (dict_get info "totalAssets") as [assets|] eqn:Hassets.
  - destruct Hcase as (tvl & Htvl & ->).
    rewrite !dict_get_set_ne by discriminate. rewrite Hassets.
    exists tvl. split; [exact Htvl | apply dict_get_set_eq].
  - subst out. rewrite !dict_get_set_ne by discriminate. rewrite Hassets.
    intros results Hfetch. unfold try_except, fetch_views in Htry.
    rewrite Hfetch in Htry. simpl in Htry.
    destruct (scale_views _ _ _) as [scaled|e] eqn:Hsc; simpl in Htry.
    + simplify_eq. rewrite dict_get_set_ne by discriminate.
      destruct (scale_views_get _ _ _ _ (dict_of_NoDup _) Hsc "tvl") as [_ Hu].
      apply Hu. right. intros Hin.
      apply (scaled_not_section_key _ Hin). unfold section_keys.
      rewrite !elem_of_cons. auto.
    + rewrite (scale_views_raise _ _ _ _ Hsc) in Htry. discriminate.
Qed.

Lemma dict_keys_fold_set pairs d :
  NoDup (dict_keys d ++ List.map fst pairs) →
  dict_keys (fold_left (fun d kv => dict_set d (fst kv) (snd kv)) pairs d)
  = dict_keys d ++ List.map fst pairs.
Proof.
  revert d. induction pairs as [|[k v] pairs IH]; intros d Hnd; simpl.
  - rewrite app_nil_r. reflexivity.
  - assert (Hk : k ∉ dict_keys d).
    { apply NoDup_app in Hnd as (_ & Hdisj & _). intros Hin.
      apply (Hdisj _ Hin). left. }
    rewrite IH; rewrite dict_keys_set_new by exact Hk.
    + rewrite <- app_assoc. reflexivity.
    + rewrite <- app_assoc. exact Hnd.
Qed.

Lemma scale_views_keys scale keys info out :
  scale_views scale keys info = Ok out → dict_keys out = dict_keys info.
Proof.
  revert info. induction keys as [|k keys IH]; intros info; simpl.
  - intros; simplify_eq. reflexivity.
  - case_bool_decide; [|apply IH].
    unfold dict_getitem. destruct (dict_get info k) as [v|] eqn:Hv; [|discriminate].
    simpl. destruct (truediv v scale) as [q|]; [|discriminate]. simpl.
    intros Hrest. rewrite (IH _ Hrest). apply dict_keys_set_known.
    apply dict_get_keys. rewrite Hv. eauto.
Qed.

(** X15: the keys of the snapshot, in order.  When the batch call answers
    every view, and the views are distinct and none is called like a key
    that [describe] writes itself, the snapshot lists the views in the order
    of the vault's views, then [strategies], then [token price], then [tvl]
    if [totalAssets] is one of the views. *)
Theorem describe_keys self results out :
  fetch_multicall (view_calls self) = Ok results →
  describe self = Ok out →
  NoDup (_views self) →
  (∀ n, n ∈ _views self → n ∉ section_keys) →
  (length (_views self) ≤ length results)%nat →
  dict_keys out
  = _views self ++ ["strategies"; "token price"]
    ++ (if bool_decide ("totalAssets" ∈ _views self) then ["tvl"] else []).
Proof.
  intros Hfetch Hout Hnd Hfree Hlen.
  assert (Hnot : ∀ k, k ∈ section_keys → k ∉ _views self).
  { intros k Hk Hin. apply (Hfree _ Hin Hk). }
  unfold section_keys in Hnot.
  destruct (describe_inv _ _ Hout) as (info & Htry & Hcase). cbv zeta in Hcase.
  unfold try_except, fetch_views in Htry. rewrite Hfetch in Htry.
  simpl in Htry.
  destruct (scale_views _ _ _) as [scaled|e] eqn:Hsc; simpl in Htry.
  2:{ rewrite (scale_views_raise _ _ _ _ Hsc) in Htry. discriminate. }
  simplify_eq.
  assert (Hkeys : dict_keys scaled = _views self).
  { rewrite (scale_views_keys _ _ _ _ Hsc). unfold dict_of.
    rewrite dict_keys_fold_set; simpl.
    - change (List.map fst (zip (_views self) results))
        with ((zip (_views self) results).*1).
      apply fst_zip. exact Hlen.
    - change (List.map fst (zip (_views self) results))
        with ((zip (_views self) results).*1).
      rewrite fst_zip by exact Hlen. exact Hnd. }
  assert (Hk1 : dict_keys (dict_set scaled "strategies" (PDict []))
                = _views self ++ ["strategies"]).
  { rewrite dict_keys_set_new; rewrite Hkeys; [reflexivity|].
    apply Hnot. rewrite !elem_of_cons. auto. }
  assert (Hk2 : dict_keys
                  (dict_set
                     (dict_set (dict_set scaled "strategies" (PDict []))
                        "strategies"
                        (PDict (strategies_section (strategies self) [])))
                     "token price" (PFloat (token_price (token (vault self)))))
                = _views self ++ ["strategies"; "token price"]).
  { rewrite dict_set_set. rewrite dict_keys_set_new.
    - rewrite dict_keys_set_new; rewrite Hkeys.
      + rewrite <- app_assoc. reflexivity.
      + apply Hnot. rewrite !elem_of_cons. auto.
    - rewrite dict_keys_set_new; rewrite Hkeys.
      + rewrite elem_of_app, elem_of_cons, elem_of_nil.
        intros [Hin|[?|[]]]; [|discriminate].
        revert Hin. apply Hnot. rewrite !elem_of_cons. auto.
      + apply Hnot. rewrite !elem_of_cons. auto. }
  rewrite dict_get_set_ne in Hcase by discriminate.
  case_bool_decide as Hassets.
  - assert (Hsome : is_Some (dict_get scaled "totalAssets"))
      by (apply dict_get_keys; rewrite Hkeys; exact Hassets).
    destruct (dict_get scaled "totalAssets") as [assets|];
      [|destruct Hsome; discriminate].
    destruct Hcase as (tvl & _ & ->).
    rewrite dict_keys_set_new; rewrite Hk2.
    + rewrite <- app_assoc. reflexivity.
    + rewrite elem_of_app, !elem_of_cons, elem_of_nil.
      intros [Hin|[?|[?|[]]]]; [|discriminate..].
      revert Hin. apply Hnot. rewrite !elem_of_cons. auto.
  - destruct (dict_get scaled "totalAssets") as [assets|] eqn:Hsome.
    + exfalso. apply Hassets. rewrite <- Hkeys. apply dict_get_keys.
      rewrite Hsome. eauto.
    + subst out. rewrite Hk2, app_nil_r. reflexivity.
Qed.

(** X16: when the batch call answers with [uint256] values, a fetched view
    of the scaled list is reported as a float, also when [decimals()] is 0,
    and a fetched view outside of that list, unless [describe] overwrites
    its key, is reported as the int that was fetched. *)
Theorem describe_value_types self results out :
  fetch_multicall (view_calls self) = Ok results →
  Forall (fun v => is_uint256 v = true) results →
  describe self = Ok out →
  ∀ n raw,
    dict_get (dict_of (zip (_views self) results)) n = Some raw →
    if bool_decide (n ∈ VAULT_VIEWS_SCALED)
    then ∃ f, dict_get out n = Some (PFloat f)
    else n ∉ section_keys →
         ∃ a, raw = PInt a ∧ dict_get out n = Some (PInt a).
Proof.
  intros Hfetch Hres Hout n raw Hraw.
  destruct (describe_on_results _ _ _ Hfetch Hout) as (scaled & Hsc & Hsame).
  pose proof (dict_of_zip_values _ (_views self) _ Hres _ _ Hraw) as Hu.
  simpl in Hu.
  destruct (scale_views_get _ _ _ _ (dict_of_NoDup _) Hsc n) as [Hs Hother].
  case_bool_decide as Hn.
  - destruct Hs as (v & q & Hv & Hq & Hscaled); [|exact Hn|].
    { apply dict_get_keys. rewrite Hraw. eauto. }
    rewrite Hraw in Hv. simplify_eq.
    assert (Hscale : 0 < 10 ^ Z.of_N (decimals (vault self)))
      by (apply Z.pow_pos_nonneg; lia).
    destruct (truediv_uint256 _ _ Hu Hscale) as [f Hf].
    rewrite Hf in Hq. simplify_eq. exists f.
    rewrite Hsame by (apply scaled_not_section_key, Hn). exact Hscaled.
  - intros Hkey. destruct raw as [a| | |]; try discriminate.
    exists a. split; [reflexivity|].
    rewrite Hsame by exact Hkey. rewrite Hother by (right; exact Hn).
    exact Hraw.
Qed.

(** *** The vault listing *)

Lemma mapM_Forall2 {A B} (f : A → result B) l ys :
  mapM f l = Ok ys ↔ Forall2 (fun x y => f x = Ok y) l ys.
Proof.
  revert ys. induction l as [|x l IH]; intros ys; simpl.
  - split.
    + intros; simplify_eq. constructor.
    + intros H. inversion H. reflexivity.
  - split.
    + destruct (f x) as [y|] eqn:Hx; [|discriminate]. simpl.
      destruct (mapM f l) as [ys'|]; [|discriminate]. simpl.
      intros; simplify_eq. constructor; [exact Hx | by apply IH].
    + intros H. inversion H as [|x' y l' ys' Hx Hrest]; subst.
      rewrite Hx. simpl. apply IH in Hrest. rewrite Hrest. reflexivity.
Qed.



(** The ABI a version is given: that of the template of the last release
    of that version. *)
Lemma release_abis_lookup releases versions out v :
  release_abis releases versions = Ok out →
  out !! v = match last (List.filter (of_api_version v) releases) with
             | Some rel => (fun t => abi (Contract_at t)) <$> evt_args rel !! "template"
             | None => versions !! v
             end.
Proof.
  revert versions. induction releases as [|x releases IH]; intros versions; simpl.
  - intros; simplify_eq. reflexivity.
  - unfold evt_getitem.
    destruct (evt_args x !! "api_version") as [v'|] eqn:Hv'; [|discriminate].
    destruct (evt_args x !! "template") as [t|] eqn:Ht; [|discriminate].
    simpl. intros Hrest. rewrite (IH _ Hrest).
    destruct (of_api_version v x) eqn:Hhit; unfold of_api_version in Hhit;
      rewrite Hv' in Hhit.
    + apply bool_decide_eq_true in Hhit. simplify_eq. rewrite last_cons.
      destruct (last (List.filter (of_api_version v) releases)); [reflexivity|].
      rewrite Ht. simpl. apply lookup_insert_eq.
    + apply bool_decide_eq_false in Hhit.
      destruct (last (List.filter (of_api_version v) releases)); [reflexivity|].
      apply lookup_insert_ne. congruence.
Qed.

Lemma vault_handle_inv versions evt h :
  vault_handle versions evt = Ok h →
  ∃ v a abi,
    evt_args evt !! "api_version" = Some v
    ∧ evt_args evt !! "vault" = Some a
    ∧ versions !! v = Some abi
    ∧ h = Contract_from_abi ("Vault v" +:+ v) a abi.
Proof.
  unfold vault_handle, evt_getitem.
  destruct (evt_args evt !! "api_version") as [v|]; [|discriminate].
  destruct (evt_args evt !! "vault") as [a|]; [|discriminate]. simpl.
  destruct (versions !! v) as [abi|] eqn:Habi; [|discriminate]. simpl.
  intros; simplify_eq. by exists v, a, abi.
Qed.

(** X17: what [get_vaults] lists when it returns.  There are as many
    vaults as there are creation events of the chosen kind, or as the batch
    call gave symbols if these are fewer; no event is left out for being a
    repeat.  The vault at a position comes from the event at that position:
    its handle is at the event's vault address, named [Vault v<version>],
    with the ABI of the template of the last release of that version,
    wherever in the history that release stands; its name is
    [<symbol> <version>]; it has no strategies. *)
Theorem get_vaults_spec key releases created vs :
  events_getitem (fetch_events (Contract_at "v2.registry.ychad.eth")) "NewRelease"
    = Ok releases →
  events_getitem (fetch_events (Contract_at "v2.registry.ychad.eth")) key
    = Ok created →
  get_vaults key = Ok vs →
  ∃ handles symbols,
    length handles = length created
    ∧ fetch_multicall (List.map (fun x => (x, "symbol")) handles) = Ok symbols
    ∧ length vs = Nat.min (length created) (length symbols)
    ∧ ∀ i listed,
        vs !! i = Some listed →
        ∃ evt sym v a rel t,
          created !! i = Some evt
          ∧ symbols !! i = Some sym
          ∧ handles !! i = Some (vault listed)
          ∧ evt_args evt !! "api_version" = Some v
          ∧ evt_args evt !! "vault" = Some a
          ∧ last (List.filter (of_api_version v) releases) = Some rel
          ∧ evt_args rel !! "template" = Some t
          ∧ vault listed
            = Contract_from_abi ("Vault v" +:+ v) a (abi (Contract_at t))
          ∧ name listed = format_value sym +:+ " " +:+ v
          ∧ api_version listed = v
          ∧ strategies listed = [].
Proof.
  intros Hreleases Hcreated. unfold get_vaults. cbv zeta.
  rewrite Hreleases. cbn [bind].
  destruct (release_abis releases ∅) as [versions|] eqn:Hversions; [|discriminate].
  cbn [bind]. rewrite Hcreated. cbn [bind].
  destruct (mapM (vault_handle versions) created) as [handles|] eqn:Hhandles;
    [|discriminate].
  cbn [bind].
  destruct (fetch_multicall _) as [symbols|] eqn:Hsymbols; [|discriminate].
  cbn [bind].
  destruct (mapM vault_name (zip created symbols)) as [vault_names|] eqn:Hnames;
    [|discriminate].
  cbn [bind]. intros Hvs.
  apply mapM_Forall2 in Hhandles, Hnames, Hvs.
  pose proof (Forall2_length _ _ _ Hhandles) as Hlen_handles.
  pose proof (Forall2_length _ _ _ Hnames) as Hlen_names.
  pose proof (Forall2_length _ _ _ Hvs) as Hlen_vs.
  rewrite !length_zip in Hlen_vs. rewrite length_zip in Hlen_names.
  exists handles, symbols. split; [congruence|]. split; [exact Hsymbols|].
  split; [lia|].
  intros i listed Hi.
  destruct (Forall2_lookup_r _ _ _ _ _ Hvs Hi) as ([[nm h] evt] & Hitem & Hlisted).
  apply lookup_zip_with_Some in Hitem as (p & evt' & Hp & Hnh & Hevt).
  simplify_eq.
  apply lookup_zip_with_Some in Hnh as (nm' & h' & Hp & Hnm & Hh).
  simplify_eq.
  destruct (Forall2_lookup_r _ _ _ _ _ Hnames Hnm) as ([evt1 sym] & Hpair & Hname).
  apply lookup_zip_with_Some in Hpair as (evt2 & sym' & Hp & Hevt2 & Hsym).
  simplify_eq.
  destruct (Forall2_lookup_r _ _ _ _ _ Hhandles Hh) as (evt3 & Hevt3 & Hhandle).
  simplify_eq.
  destruct (vault_handle_inv _ _ _ Hhandle) as (v & a & abi0 & Hv & Ha & Habi & ->).
  rewrite (release_abis_lookup _ _ _ v Hversions) in Habi.
  destruct (last (List.filter (of_api_version v) releases)) as [rel|] eqn:Hrel;
    [|rewrite lookup_empty in Habi; discriminate].
  destruct (evt_args rel !! "template") as [t|] eqn:Ht; [|discriminate].
  simpl in Habi. simplify_eq.
  unfold vault_name, evt_getitem in Hname. simpl in Hname.
  rewrite Hv in Hname. simpl in Hname. simplify_eq.
  unfold listed_vault, evt_getitem, VaultV2_init in Hlisted. simpl in Hlisted.
  rewrite Hv in Hlisted. simpl in Hlisted.
  destruct (numeric_views _) as [views|]; [|discriminate].
  simpl in Hlisted. simplify_eq. simpl.
  exists evt', sym', v, a, rel, t. repeat split; assumption.
Qed.






(** X20: the registry does not tell the two kinds of creation event
    apart: a [NewVault] and a [NewExperimentalVault] event with the same
    fields do the same to any registry, and nothing records the kind. *)
Theorem vault_kinds_alike e1 e2 self :
  evt_name e1 ∈ ["NewVault"; "NewExperimentalVault"] →
  evt_name e2 ∈ ["NewVault"; "NewExperimentalVault"] →
  evt_args e1 = evt_args e2 →
  process_event e1 self = process_event e2 self.
Proof.
  intros H1 H2 Hargs.
  destruct (vault_created_dispatch _ H1) as [Hg1 Hr1].
  destruct (vault_created_dispatch _ H2) as [Hg2 Hr2].
  unfold process_event, evt_getitem.
  rewrite (bool_decide_eq_false_2 _ Hg1), (bool_decide_eq_false_2 _ Hr1),
    (bool_decide_eq_true_2 _ H1), (bool_decide_eq_false_2 _ Hg2),
    (bool_decide_eq_false_2 _ Hr2), (bool_decide_eq_true_2 _ H2), Hargs.
  reflexivity.
Qed.

End Exporter.

(** ** The operations on the sample deployment *)

Example sample_init :
  Registry_init sample_Contract_at sample_symbol sample_ens_resolve sample_fetch_events
  = Ok {| registry := sample_Contract_at "0xregistry"; governance := None;
          api_versions := {[ "0.3.0" := sample_Contract_at "0xtemplateX" ]};
          vaults := {[ "0xvaultY" := sample_vaultY ]};
          names := {[ "0xvaultY" := "yvDAI 0.3.0" ]};
          endorsed := ∅; tags := ∅;
          events := [sample_release; sample_vault_created];
          last_block := Some 120 |}.
Proof. vm_compute. reflexivity. Qed.

Example sample_describe :
  describe sample_decimals sample_token sample_token_price sample_fetch_multicall
    sample_vault = Ok sample_snapshot.
Proof. vm_compute. reflexivity. Qed.

Example sample_views :
  VaultV2_init "yvDAI 0.3.0" "0.3.0" sample_vaultY [sample_strategy] = Ok sample_vault.
Proof. vm_compute. reflexivity. Qed.

(** ** The claims on the sample deployment *)

(** Settles a decidable proposition by evaluating its decision procedure. *)
Ltac decide_by_computation :=
  apply (bool_decide_unpack _); vm_compute; exact I.

Lemma new_vault_display_name_witness :
  ∃ self',
    process_event sample_Contract_at sample_symbol sample_vault_created sample_registry
      = Ok self'
    ∧ vaults self' !! "0xvaultY" = Some sample_vaultY
    ∧ names self' !! "0xvaultY" = Some "yvDAI 0.3.0".
Proof.
  apply (new_vault_display_name sample_Contract_at sample_symbol
           sample_vault_created sample_registry "0xvaultY" "0.3.0"
           (sample_Contract_at "0xtemplateX")).
  - decide_by_computation.
  - vm_compute. reflexivity.
  - vm_compute. reflexivity.
  - vm_compute. reflexivity.
  - vm_compute. reflexivity.
Defined.

(** The display name the registry records has no v before the version:
    the claim C1, as stated, fails on the sample vault. *)
Lemma display_name_counterexample :
  evt_name sample_vault_created ∈ ["NewVault"; "NewExperimentalVault"]
  ∧ evt_args sample_vault_created !! "vault" = Some "0xvaultY"
  ∧ evt_args sample_vault_created !! "api_version" = Some "0.3.0"
  ∧ api_versions sample_registry !! "0.3.0" = Some (sample_Contract_at "0xtemplateX")
  ∧ vaults sample_registry !! "0xvaultY" = None
  ∧ ∃ self',
      process_event sample_Contract_at sample_symbol sample_vault_created
        sample_registry = Ok self'
      ∧ names self' !! "0xvaultY" = Some "yvDAI 0.3.0"
      ∧ names self' !! "0xvaultY"
        ≠ Some (sample_symbol sample_vaultY +:+ " v" +:+ "0.3.0").
Proof.
  split; [decide_by_computation|].
  do 4 (split; [vm_compute; reflexivity|]).
  exists sample_registry_created.
  split; [vm_compute; reflexivity|].
  split; [vm_compute; reflexivity|].
  vm_compute. discriminate.
Qed.

Lemma watch_block_advances_witness :
  watch_block sample_Contract_at sample_symbol sample_ledger 150 sample_registry
  = (set_last_block 150 sample_registry_tagged, None).
Proof.
  destruct (watch_block_advances sample_Contract_at sample_symbol sample_ledger
              150 sample_registry 100) as (_ & Happly & _).
  - reflexivity.
  - reflexivity.
  - apply Happly. vm_compute. reflexivity.
Defined.

Lemma release_before_vault_witness :
  process_events sample_Contract_at sample_symbol
    [sample_vault_created; sample_release] sample_registry_empty
  = (sample_registry_empty, Some (KeyError "0.3.0")).
Proof.
  destruct (release_before_vault sample_Contract_at sample_symbol
              sample_ens_resolve sample_fetch_events sample_ledger
              sample_registry_empty sample_release sample_vault_created
              "0.3.0" "0xtemplateX" "0xvaultY") as (_ & Hmissing & _).
  - reflexivity.
  - vm_compute. reflexivity.
  - vm_compute. reflexivity.
  - decide_by_computation.
  - vm_compute. reflexivity.
  - vm_compute. reflexivity.
  - apply Hmissing; vm_compute; reflexivity.
Defined.

Lemma unknown_event_raises_witness :
  process_event sample_Contract_at sample_symbol sample_transfer sample_registry
  = Raise (UnknownEvent "Transfer").
Proof.
  destruct (unknown_event_raises sample_Contract_at sample_symbol
              sample_ens_resolve sample_fetch_events sample_ledger
              sample_transfer) as (Hraise & _).
  - decide_by_computation.
  - apply Hraise.
Defined.

Lemma vault_created_idempotent_witness :
  process_event sample_Contract_at sample_symbol sample_vault_created
    sample_registry_created = Ok sample_registry_created.
Proof.
  destruct (vault_created_idempotent sample_Contract_at sample_symbol
              sample_vault_created sample_registry sample_registry_created)
    as (Htwice & _).
  - decide_by_computation.
  - vm_compute. reflexivity.
  - exact Htwice.
Defined.

Lemma watch_block_halts_witness :
  watch_block sample_Contract_at sample_symbol sample_ledger 160 sample_registry
  = (sample_registry_tagged, Some (UnknownEvent "Transfer"))
  ∧ last_block sample_registry_tagged = Some 100.
Proof.
  destruct (watch_block_halts sample_Contract_at sample_symbol sample_ledger
              160 sample_registry 100 sample_registry_tagged
              (UnknownEvent "Transfer")) as (Hhalt & Hcursor & _).
  - reflexivity.
  - vm_compute. reflexivity.
  - split; assumption.
Defined.

Lemma describe_degraded_keys_witness :
  ∃ info,
    describe sample_decimals sample_token sample_token_price sample_fetch_reverted
      sample_vault = Ok info
    ∧ dict_keys info = ["strategies"; "token price"]
    ∧ dict_get info "token price" = Some (PFloat float_1).
Proof.
  apply (describe_degraded_keys sample_decimals sample_token sample_token_price
           sample_fetch_reverted sample_vault sample_reverted).
  - reflexivity.
  - vm_compute. reflexivity.
Defined.

(** The degraded snapshot has a [token price] key next to [strategies], and
    a batch call that fails with another exception than a [ValueError] makes
    [describe] raise: the claim C2, as stated, fails on the sample vault. *)
Lemma describe_degraded_keys_counterexample :
  sample_fetch_reverted (view_calls sample_vault) = Raise sample_reverted
  ∧ describe sample_decimals sample_token sample_token_price sample_fetch_reverted
      sample_vault
    = Ok [("strategies", PDict [("StrategyLender", PDict [("debtLimit", PInt 1000)])]);
          ("token price", PFloat float_1)]
  ∧ sample_fetch_unreachable (view_calls sample_vault) = Raise sample_unreachable
  ∧ describe sample_decimals sample_token sample_token_price
      sample_fetch_unreachable sample_vault = Raise sample_unreachable.
Proof. repeat split; vm_compute; reflexivity. Qed.

Lemma describe_scaling_witness :
  dict_get sample_snapshot "totalAssets" = Some (PFloat float_5)
  ∧ ∃ out,
      describe sample_decimals sample_token sample_token_price
        sample_fetch_multicall sample_vault = Ok out.
Proof.
  destruct (describe_scaling sample_decimals sample_token sample_token_price
              sample_fetch_multicall sample_vault [PInt 5000000; PInt 7])
    as (Hreport & Hreturns).
  - reflexivity.
  - split.
    + destruct (Hreport sample_snapshot) as (_ & Hfive).
      * vm_compute. reflexivity.
      * apply Hfive; vm_compute; reflexivity.
    + apply Hreturns. repeat constructor.
Defined.

(** A fetched view called [tvl] is outside the scaled list and yet not
    reported as fetched: the claim C7, as stated, fails on a vault with such
    a view. *)
Lemma describe_scaling_counterexample :
  VaultV2_init "yvDAI 0.3.0" "0.3.0" sample_contract_tvl [] = Ok sample_vault_tvl
  ∧ sample_fetch_multicall (view_calls sample_vault_tvl) = Ok [PInt 5000000; PInt 7]
  ∧ dict_get (dict_of (zip (_views sample_vault_tvl) [PInt 5000000; PInt 7])) "tvl"
    = Some (PInt 7)
  ∧ ("tvl" ∉ VAULT_VIEWS_SCALED)
  ∧ ∃ out,
      describe sample_decimals sample_token sample_token_price
        sample_fetch_multicall sample_vault_tvl = Ok out
      ∧ dict_get out "tvl" = Some (PFloat float_5)
      ∧ dict_get out "tvl" ≠ Some (PInt 7).
Proof.
  split; [vm_compute; reflexivity|].
  split; [reflexivity|]. split; [vm_compute; reflexivity|].
  split; [decide_by_computation|].
  eexists. split; [vm_compute; reflexivity|].
  split; [vm_compute; reflexivity|]. vm_compute. discriminate.
Qed.

Lemma describe_degraded_strategies_witness :
  ∃ info sect,
    describe sample_decimals sample_token sample_token_price sample_fetch_reverted
      sample_vault = Ok info
    ∧ dict_get info "strategies" = Some (PDict sect)
    ∧ dict_get sect "StrategyLender" = Some (PDict [("debtLimit", PInt 1000)])
    ∧ dict_get info "tvl" = None
    ∧ dict_get info "totalAssets" = None.
Proof.
  destruct (describe_degraded_strategies sample_decimals sample_token
              sample_token_price sample_fetch_reverted sample_vault
              sample_reverted)
    as (info & sect & Hinfo & Hsect & Hlast & _ & Htvl & Hassets).
  - reflexivity.
  - vm_compute. reflexivity.
  - exists info, sect. repeat split; try assumption.
    apply (Hlast [] sample_strategy []); [reflexivity|].
    intros s' Hs'. apply elem_of_nil in Hs'. destruct Hs'.
Defined.

(** A batch call that raises another exception than a [ValueError] makes
    [describe] raise, and no mapping is returned: the claim C9, as stated,
    fails on the sample vault. *)
Lemma describe_degraded_strategies_counterexample :
  sample_fetch_unreachable (view_calls sample_vault) = Raise sample_unreachable
  ∧ describe sample_decimals sample_token sample_token_price
      sample_fetch_unreachable sample_vault = Raise sample_unreachable
  ∧ ¬ ∃ info,
        describe sample_decimals sample_token sample_token_price
          sample_fetch_unreachable sample_vault = Ok info.
Proof.
  split; [reflexivity|]. split; [vm_compute; reflexivity|].
  intros [info Hinfo]. vm_compute in Hinfo. discriminate.
Qed.

Lemma describe_catches_value_error_only_witness :
  describe sample_decimals sample_token sample_token_price
    sample_fetch_unreachable sample_vault = Raise sample_unreachable.
Proof.
  destruct (describe_catches_value_error_only sample_decimals sample_token
              sample_token_price sample_fetch_unreachable sample_vault
              sample_unreachable) as (Hbatch & _).
  - vm_compute. reflexivity.
  - apply Hbatch. reflexivity.
Defined.

(** ** More properties on the sample deployment *)

Lemma tags_last_write_wins_witness :
  tags (set_tag "0xvaultY" "deprecated" sample_registry_tagged) !! "0xvaultY"
  = Some "deprecated".
Proof.
  rewrite (tags_last_write_wins sample_Contract_at sample_symbol
             [sample_vault_created; sample_tagged; sample_tagged_again]
             sample_registry
             (set_tag "0xvaultY" "deprecated" sample_registry_tagged) "0xvaultY").
  - vm_compute. reflexivity.
  - vm_compute. reflexivity.
Defined.

Lemma governance_last_write_wins_witness :
  governance (set_governance "0xgov2" (set_governance "0xgov" sample_registry))
  = Some "0xgov2".
Proof.
  rewrite (governance_last_write_wins sample_Contract_at sample_symbol
             [sample_governance; sample_governance_again] sample_registry
             (set_governance "0xgov2" (set_governance "0xgov" sample_registry))).
  - vm_compute. reflexivity.
  - vm_compute. reflexivity.
Defined.

Lemma releases_last_write_wins_witness :
  api_versions
    (set_api_version "0.3.0" (sample_Contract_at "0xtemplateZ") sample_registry)
    !! "0.3.0"
  = Some (sample_Contract_at "0xtemplateZ").
Proof.
  rewrite (releases_last_write_wins sample_Contract_at sample_symbol
             [sample_release_again] sample_registry
             (set_api_version "0.3.0" (sample_Contract_at "0xtemplateZ")
                sample_registry) "0.3.0").
  - vm_compute. reflexivity.
  - vm_compute. reflexivity.
Defined.

Lemma registry_never_forgets_witness :
  vaults sample_registry_tagged !! "0xvaultY" = Some sample_vaultY
  ∧ names sample_registry_tagged !! "0xvaultY"
    = names sample_registry_created !! "0xvaultY".
Proof.
  destruct (registry_never_forgets sample_Contract_at sample_symbol
              [sample_experimental_created; sample_tagged; sample_transfer]
              sample_registry_created sample_registry_tagged
              (Some (UnknownEvent "Transfer"))) as (Hvaults & _).
  - vm_compute. reflexivity.
  - apply (Hvaults "0xvaultY" sample_vaultY). vm_compute. reflexivity.
Defined.

Lemma watch_keeps_history_witness :
  registry (set_last_block 150 (set_tag "0xvaultY" "stable" sample_registry_init))
    = sample_Contract_at "0xregistry"
  ∧ events (set_last_block 150 (set_tag "0xvaultY" "stable" sample_registry_init))
    = [sample_release; sample_vault_created]
  ∧ endorsed (set_last_block 150 (set_tag "0xvaultY" "stable" sample_registry_init))
    = ∅.
Proof.
  apply (watch_keeps_history sample_Contract_at sample_symbol sample_ens_resolve
           sample_fetch_events sample_ledger sample_registry_init [150; 160]
           (set_last_block 150 (set_tag "0xvaultY" "stable" sample_registry_init))
           (Some (UnknownEvent "Transfer"))).
  - vm_compute. reflexivity.
  - vm_compute. reflexivity.
Defined.


Lemma watch_block_at_or_below_cursor_witness :
  watch_block sample_Contract_at sample_symbol sample_ledger 110 sample_registry_init
  = (set_last_block 110 sample_registry_init, None).
Proof.
  apply (watch_block_at_or_below_cursor sample_Contract_at sample_symbol
           sample_ledger 110 sample_registry_init 120).
  - reflexivity.
  - vm_compute. discriminate.
Defined.


Lemma sample_ledger_sorted :
  StronglySorted (fun x y => log_block x ≤ log_block y) sample_ledger.
Proof.
  unfold sample_ledger.
  repeat (first [ apply SSorted_nil | apply SSorted_cons
                | apply List.Forall_nil | apply List.Forall_cons ]);
    vm_compute; discriminate.
Defined.

Lemma watch_turns_compose_witness :
  watch_block sample_Contract_at sample_symbol sample_ledger 150 sample_registry
    = (set_last_block 150 sample_registry_tagged, None)
  ↔ ∃ s1,
      watch_block sample_Contract_at sample_symbol sample_ledger 120 sample_registry
        = (s1, None)
      ∧ watch_block sample_Contract_at sample_symbol sample_ledger 150 s1
        = (set_last_block 150 sample_registry_tagged, None).
Proof.
  apply (watch_turns_compose sample_Contract_at sample_symbol sample_ledger
           120 150 sample_registry 100 (set_last_block 150 sample_registry_tagged)).
  - exact sample_ledger_sorted.
  - reflexivity.
  - vm_compute. discriminate.
  - vm_compute. discriminate.
Defined.

Lemma registry_replays_log_witness :
  ∃ l s,
    last_block sample_registry_init = Some l
    ∧ process_events sample_Contract_at sample_symbol
        (events (initial_registry sample_Contract_at sample_ens_resolve
                   sample_fetch_events)
         ++ decode_logs
              (get_logs sample_ledger
                 (address (registry (initial_registry sample_Contract_at
                                       sample_ens_resolve sample_fetch_events)))
                 (l + 1) 150))
        (initial_registry sample_Contract_at sample_ens_resolve sample_fetch_events)
      = (s, None)
    ∧ set_last_block 150 (set_tag "0xvaultY" "stable" sample_registry_init)
      = set_last_block 150 s.
Proof.
  apply (registry_replays_log sample_Contract_at sample_symbol sample_ens_resolve
           sample_fetch_events sample_ledger sample_registry_init 150
           (set_last_block 150 (set_tag "0xvaultY" "stable" sample_registry_init))).
  - vm_compute. reflexivity.
  - vm_compute. reflexivity.
Defined.

Lemma describe_always_reports_witness :
  dict_get sample_snapshot "strategies"
    = Some (PDict (strategies_section (strategies sample_vault) []))
  ∧ dict_get sample_snapshot "token price"
    = Some (PFloat (sample_token_price (sample_token (vault sample_vault)))).
Proof.
  apply (describe_always_reports sample_decimals sample_token sample_token_price
           sample_fetch_multicall sample_vault sample_snapshot).
  vm_compute. reflexivity.
Defined.

Lemma describe_tvl_witness :
  match dict_get sample_snapshot "totalAssets" with
  | Some assets =>
      ∃ tvl,
        float_mul (sample_token_price (sample_token (vault sample_vault))) assets
          = Ok tvl
        ∧ dict_get sample_snapshot "tvl" = Some tvl
  | None =>
      ∀ results,
        sample_fetch_multicall (view_calls sample_vault) = Ok results →
        dict_get sample_snapshot "tvl"
        = dict_get (dict_of (zip (_views sample_vault) results)) "tvl"
  end.
Proof.
  apply (describe_tvl sample_decimals sample_token sample_token_price
           sample_fetch_multicall sample_vault sample_snapshot).
  vm_compute. reflexivity.
Defined.

Lemma describe_keys_witness :
  dict_keys sample_snapshot
  = ["totalAssets"; "activation"; "strategies"; "token price"; "tvl"].
Proof.
  apply (describe_keys sample_decimals sample_token sample_token_price
           sample_fetch_multicall sample_vault [PInt 5000000; PInt 7]
           sample_snapshot).
  - reflexivity.
  - vm_compute. reflexivity.
  - decide_by_computation.
  - intros n Hn. apply list_elem_of_In in Hn. simpl in Hn.
    destruct Hn as [<-|[<-|[]]]; decide_by_computation.
  - vm_compute. repeat constructor.
Defined.

Lemma describe_value_types_witness :
  ∃ f, dict_get sample_snapshot "totalAssets" = Some (PFloat f).
Proof.
  apply (describe_value_types sample_decimals sample_token sample_token_price
           sample_fetch_multicall sample_vault [PInt 5000000; PInt 7]
           sample_snapshot ltac:(reflexivity) ltac:(repeat constructor)
           ltac:(vm_compute; reflexivity) "totalAssets" (PInt 5000000)).
  vm_compute. reflexivity.
Defined.

Lemma get_vaults_spec_witness :
  ∃ handles symbols,
    length handles = length [sample_vault_created]
    ∧ sample_fetch_symbols (List.map (fun x => (x, "symbol")) handles) = Ok symbols
    ∧ length [sample_listed_vault]
      = Nat.min (length [sample_vault_created]) (length symbols)
    ∧ ∀ i listed,
        [sample_listed_vault] !! i = Some listed →
        ∃ evt sym v a rel t,
          [sample_vault_created] !! i = Some evt
          ∧ symbols !! i = Some sym
          ∧ handles !! i = Some (vault listed)
          ∧ evt_args evt !! "api_version" = Some v
          ∧ evt_args evt !! "vault" = Some a
          ∧ last (List.filter (of_api_version v) [sample_release]) = Some rel
          ∧ evt_args rel !! "template" = Some t
          ∧ vault listed
            = Contract_from_abi ("Vault v" +:+ v) a (abi (sample_Contract_at t))
          ∧ name listed = sample_format_value sym +:+ " " +:+ v
          ∧ api_version listed = v
          ∧ strategies listed = [].
Proof.
  apply (get_vaults_spec sample_Contract_at sample_fetch_events_reversed
           sample_fetch_symbols sample_events_getitem sample_format_value
           "NewVault" [sample_release] [sample_vault_created]
           [sample_listed_vault]).
  - vm_compute. reflexivity.
  - vm_compute. reflexivity.
  - vm_compute. reflexivity.
Defined.



Lemma vault_kinds_alike_witness :
  process_event sample_Contract_at sample_symbol sample_vault_created sample_registry
  = process_event sample_Contract_at sample_symbol sample_experimental_created
      sample_registry.
Proof.
  apply (vault_kinds_alike sample_Contract_at sample_symbol sample_vault_created
           sample_experimental_created sample_registry).
  - decide_by_computation.
  - decide_by_computation.
  - reflexivity.
Defined.
